(** * symbols-check: the symbol-export compliance checker

    A shallow embedding of [bin/symbols-check.py] and the properties of its
    audit.  The script lists the dynamic symbols a shared library exports
    (through an [nm]-like tool), reads a policy file of mandatory and
    optional symbol names, and prints the exported symbols the policy does
    not know and the mandatory symbols the library lacks.

    Modelling choices.
    - A Python [str] is a [string]; a character is a code point below 256.
    - A Python [list] of strings is a [list string]: order and duplicates
      are kept, [x in l] is a linear search with string equality.
    - The two things the script gets from outside, the tool's decoded
      standard output and the lines of the policy file, are the fields of a
      [World]; each may raise instead of giving lines.
    - [main] is written in a small monad over the [Store] of the script's
      variables and its standard output, with [exit] and uncaught
      exceptions as the two abnormal results. *)

From Stdlib Require Import String Ascii List Bool Arith ZArith Lia.
From Stdlib Require Import Permutation.
Import ListNotations.

Local Open Scope string_scope.
Local Open Scope list_scope.

(** ** Python string primitives *)

Module PyStr.

(** [str.isspace] on one character, for code points below 256:
    TAB, LF, VT, FF, CR, FS, GS, RS, US, SPACE, NEL and NBSP. *)
Definition isspace (c : ascii) : bool :=
  let n := nat_of_ascii c in
  (Nat.leb 9 n && Nat.leb n 13) || (Nat.leb 28 n && Nat.leb n 32)
  || Nat.eqb n 133 || Nat.eqb n 160.

(** [s.split('#')[0]]: the text before the first ['#'], all of [s] when there
    is none. *)
Fixpoint before_hash (s : string) : string :=
  match s with
  | EmptyString => EmptyString
  | String c r => if Ascii.eqb c "#" then EmptyString else String c (before_hash r)
  end.

Fixpoint lstrip (s : string) : string :=
  match s with
  | EmptyString => EmptyString
  | String c r => if isspace c then lstrip r else s
  end.

Fixpoint rstrip (s : string) : string :=
  match s with
  | EmptyString => EmptyString
  | String c r =>
      match rstrip r with
      | EmptyString => if isspace c then EmptyString else String c EmptyString
      | r' => String c r'
      end
  end.

(** [s.strip()] *)
Definition strip (s : string) : string := rstrip (lstrip s).

(** The token being read, closed: nothing when it is empty. *)
Definition flush (tok : string) : list string :=
  match tok with
  | EmptyString => []
  | _ => [tok]
  end.

(** [s.split()] with [tok] the characters of the current token read so far. *)
Fixpoint split_from (tok : string) (s : string) : list string :=
  match s with
  | EmptyString => flush tok
  | String c r =>
      if isspace c then flush tok ++ split_from EmptyString r
      else split_from (tok ++ String c EmptyString) r
  end.

(** [s.split()]: the maximal runs of non-space characters, in order. *)
Definition split (s : string) : list string := split_from EmptyString s.

(** [x in l] for a list of strings. *)
Definition py_in (x : string) (l : list string) : bool :=
  existsb (String.eqb x) l.

(** Truth value of a string and of a list. *)
Definition truthy (s : string) : bool :=
  match s with
  | EmptyString => false
  | _ => true
  end.

Definition nonempty {A : Type} (l : list A) : bool :=
  match l with
  | [] => false
  | _ => true
  end.

End PyStr.
Import PyStr.

(** ** The world outside the script *)

(** The exceptions the script can let escape. *)
Inductive exception : Type :=
| CalledProcessError   (* the tool ended with a non-zero status *)
| OSError              (* the tool or the policy file cannot be opened *)
| UnicodeDecodeError   (* the tool's output is not ASCII *)
| ValueError.          (* unpacking a sequence of the wrong length *)

(** The parsed command line: the three required options. *)
Record Args : Type := mkArgs {
  symbols_file : string;
  lib : string;
  nm : string
}.

(** [nm_output nm lib] is
    [subprocess.check_output([nm, '--format=bsd', '-D', '--defined-only', lib],
    stderr=...).decode("ascii").splitlines()]; [file_lines path] is
    [open(path).readlines()].  Either gives its lines or raises. *)
Record World : Type := mkWorld {
  nm_output : string -> string -> exception + list string;
  file_lines : string -> exception + list string
}.

(** This list contains symbols that _might_ be exported for some platforms *)
Definition PLATFORM_SYMBOLS : list string :=
  [ "__bss_end__";
    "__bss_start__";
    "__bss_start";
    "__end__";
    "_bss_end__";
    "_edata";
    "_end";
    "_fini";
    "_init" ].

(** [(_, _, symbol_name) = fields]: a sequence of any length but three does
    not unpack. *)
Definition unpack3 (fields : list string) : exception + string :=
  match fields with
  | [_; _; symbol_name] => inr symbol_name
  | _ => inl ValueError
  end.

(** The loop of [get_symbols], [symbols] being the list built so far. *)
Fixpoint get_symbols_loop (lines : list string) (symbols : list string)
  : exception + list string :=
  match lines with
  | [] => inr symbols
  | line :: rest =>
      match unpack3 (split line) with
      | inl e => inl e
      | inr symbol_name => get_symbols_loop rest (symbols ++ [symbol_name])
      end
  end.

(** List all the symbols exported by the library. *)
Definition get_symbols (w : World) (nm lib : string) : exception + list string :=
  match nm_output w nm lib with
  | inl e => inl e
  | inr lines => get_symbols_loop lines []
  end.

(** ** The variables of [main] and its standard output *)

Record Store : Type := mkStore {
  lib_symbols : list string;
  mandatory_symbols : list string;
  optional_symbols : list string;
  unknown_symbols : list string;
  missing_symbols : list string;
  stdout : list string          (* the lines printed so far *)
}.

Definition empty_store : Store := mkStore [] [] [] [] [] [].

Definition with_lib_symbols (v : list string) (s : Store) : Store :=
  mkStore v (mandatory_symbols s) (optional_symbols s) (unknown_symbols s)
          (missing_symbols s) (stdout s).

Definition with_mandatory_symbols (v : list string) (s : Store) : Store :=
  mkStore (lib_symbols s) v (optional_symbols s) (unknown_symbols s)
          (missing_symbols s) (stdout s).

Definition with_optional_symbols (v : list string) (s : Store) : Store :=
  mkStore (lib_symbols s) (mandatory_symbols s) v (unknown_symbols s)
          (missing_symbols s) (stdout s).

Definition with_unknown_symbols (v : list string) (s : Store) : Store :=
  mkStore (lib_symbols s) (mandatory_symbols s) (optional_symbols s) v
          (missing_symbols s) (stdout s).

Definition with_missing_symbols (v : list string) (s : Store) : Store :=
  mkStore (lib_symbols s) (mandatory_symbols s) (optional_symbols s)
          (unknown_symbols s) v (stdout s).

Definition with_stdout (v : list string) (s : Store) : Store :=
  mkStore (lib_symbols s) (mandatory_symbols s) (optional_symbols s)
          (unknown_symbols s) (missing_symbols s) v.

(** ** The monad of the script: store, [exit] and uncaught exceptions *)

Inductive result (A : Type) : Type :=
| Normal (a : A) (s : Store)            (* the statement ran to its end *)
| SystemExit (code : Z) (s : Store)     (* [exit(code)] was called *)
| Uncaught (e : exception) (s : Store). (* an exception nobody catches *)

Arguments Normal {A} a s.
Arguments SystemExit {A} code s.
Arguments Uncaught {A} e s.

Definition M (A : Type) : Type := Store -> result A.

Definition ret {A : Type} (a : A) : M A := fun s => Normal a s.

Definition bind {A B : Type} (m : M A) (k : A -> M B) : M B :=
  fun s =>
    match m s with
    | Normal a s' => k a s'
    | SystemExit code s' => SystemExit code s'
    | Uncaught e s' => Uncaught e s'
    end.

Notation "x <- m ;; k" := (bind m (fun x => k))
  (at level 61, m at next level, right associativity).
Notation "m ;; k" := (bind m (fun _ => k))
  (at level 61, right associativity).

(** A computation of the outside world, its exception left uncaught. *)
Definition lift {A : Type} (r : exception + A) : M A :=
  fun s =>
    match r with
    | inl e => Uncaught e s
    | inr a => Normal a s
    end.

Definition get {A : Type} (field : Store -> A) : M A := fun s => Normal (field s) s.

Definition modify (f : Store -> Store) : M unit := fun s => Normal tt (f s).

Definition print (line : string) : M unit :=
  modify (fun s => with_stdout (stdout s ++ [line]) s).

Definition exit {A : Type} (code : Z) : M A := fun s => SystemExit code s.

(** [for x in xs: body(x)] *)
Fixpoint for_each {A : Type} (xs : list A) (body : A -> M unit) : M unit :=
  match xs with
  | [] => ret tt
  | x :: rest => body x ;; for_each rest body
  end.

(** ** The script *)

Definition qualifier_optional : string := "(optional)".

(** [qualifier == s] for a qualifier that may be [None]. *)
Definition qualifier_is (qualifier : option string) (s : string) : bool :=
  match qualifier with
  | Some q => String.eqb q s
  | None => false
  end.

(** The end of the loop body: the symbol goes to one list or to the other. *)
Definition record_entry (qualifier : option string) (symbol : string) : M unit :=
  if qualifier_is qualifier qualifier_optional
  then modify (fun s => with_optional_symbols (optional_symbols s ++ [symbol]) s)
  else modify (fun s => with_mandatory_symbols (mandatory_symbols s ++ [symbol]) s).

(** The body of the loop over the lines of the policy file. *)
Definition policy_line (args : Args) (raw : string) : M unit :=
  (* Strip comments *)
  let line := before_hash raw in
  let line := strip line in
  if negb (truthy line) then ret tt
  else
    (* Line format: [qualifier] symbol *)
    let fields := split line in
    entry <- match fields with
             | [f0] => ret (None, f0)
             | [f0; f1] => ret (Some f0, f1)
             | _ => print (symbols_file args ++ ": invalid format: " ++ line) ;;
                    exit 1
             end ;;
    let '(qualifier, symbol) := entry in
    (* The only supported qualifier is 'optional' *)
    match qualifier with
    | Some q =>
        if truthy q && negb (String.eqb q qualifier_optional)
        then print (symbols_file args ++ ": invalid qualifier: " ++ q) ;; exit 1
        else ret tt
    | None => ret tt
    end ;;
    record_entry qualifier symbol.

(** The body of the loop over the exported symbols. *)
Definition classify (symbol : string) : M unit :=
  mandatory <- get mandatory_symbols ;;
  if py_in symbol mandatory then ret tt
  else
    optional <- get optional_symbols ;;
    if py_in symbol optional then ret tt
    else if py_in symbol PLATFORM_SYMBOLS then ret tt
    else modify (fun s => with_unknown_symbols (unknown_symbols s ++ [symbol]) s).

(** The audit: the two lists [unknown_symbols] and [missing_symbols]. *)
Definition audit : M unit :=
  modify (with_unknown_symbols []) ;;
  exported <- get lib_symbols ;;
  for_each exported classify ;;
  modify (fun s =>
    with_missing_symbols
      (filter (fun sym => negb (py_in sym (lib_symbols s))) (mandatory_symbols s)) s).

Definition unknown_line (args : Args) (symbol : string) : string :=
  lib args ++ ": unknown symbol exported: " ++ symbol.

Definition missing_line (args : Args) (symbol : string) : string :=
  lib args ++ ": missing symbol: " ++ symbol.

(** The report and the exit status. *)
Definition report (args : Args) : M unit :=
  unknown <- get unknown_symbols ;;
  for_each unknown (fun symbol => print (unknown_line args symbol)) ;;
  missing <- get missing_symbols ;;
  for_each missing (fun symbol => print (missing_line args symbol)) ;;
  if nonempty unknown || nonempty missing then exit 1 else exit 0.

(** [main] from line 50 on, [args] being what [parser.parse_args()] gave:
    the parsing of the command line (lines 35 to 48, with its own exits on
    a missing or unknown option and on [--help]) is outside the model. *)
Definition main (w : World) (args : Args) : M unit :=
  symbols <- lift (get_symbols w (nm args) (lib args)) ;;
  modify (with_lib_symbols symbols) ;;
  modify (with_mandatory_symbols []) ;;
  modify (with_optional_symbols []) ;;
  lines <- lift (file_lines w (symbols_file args)) ;;
  for_each lines (policy_line args) ;;
  audit ;;
  report args.

(** ** What the caller of the process sees *)

Definition final_store {A : Type} (r : result A) : Store :=
  match r with
  | Normal _ s => s
  | SystemExit _ s => s
  | Uncaught _ s => s
  end.

(** The exit status: the argument of [exit], 1 when the interpreter ends on
    an uncaught exception, 0 when the script runs to its end. *)
Definition exit_status {A : Type} (r : result A) : Z :=
  match r with
  | Normal _ _ => 0%Z
  | SystemExit code _ => code
  | Uncaught _ _ => 1%Z
  end.

Definition printed {A : Type} (r : result A) : list string := stdout (final_store r).

(** One run of the script, from a fresh interpreter. *)
Definition run (w : World) (args : Args) : result unit := main w args empty_store.

(** ** Sample inputs *)

Definition sample_args : Args := mkArgs "syms.txt" "libfoo.so" "nm".

Definition world_of (tool : exception + list string) (policy : exception + list string)
  : World :=
  mkWorld (fun _ _ => tool) (fun _ => policy).

(** ** The vocabulary of the specification *)

(** A policy line once its comment is stripped and it is trimmed, and its
    whitespace-separated tokens. *)
Definition stripped (raw : string) : string := strip (before_hash raw).

Definition fields_of (raw : string) : list string := split (stripped raw).

(** A line is rejected when it is not blank and has three tokens or more, or
    two tokens the first of which is not the qualifier. *)
Definition rejected (raw : string) : bool :=
  let fields := fields_of raw in
  truthy (stripped raw)
  && (Nat.leb 3 (length fields)
      || (Nat.eqb (length fields) 2
          && negb (String.eqb (nth 0 fields "") qualifier_optional))).

(** The message printed for a rejected line. *)
Definition error_message (args : Args) (raw : string) : string :=
  match fields_of raw with
  | [q; _] => symbols_file args ++ ": invalid qualifier: " ++ q
  | _ => symbols_file args ++ ": invalid format: " ++ stripped raw
  end.

(** The symbols a list of accepted lines declares, in the order of the lines. *)
Definition declared_mandatory (lines : list string) : list string :=
  flat_map (fun raw => match fields_of raw with [sym] => [sym] | _ => [] end) lines.

Definition declared_optional (lines : list string) : list string :=
  flat_map (fun raw => match fields_of raw with [_; sym] => [sym] | _ => [] end) lines.

(** A symbol the policy [M], [O] or the platform list allows. *)
Definition allowed (M O : list string) (x : string) : bool :=
  py_in x M || py_in x O || py_in x PLATFORM_SYMBOLS.

(** E - (M u O u PlatformNoise), as a sequence. *)
Definition expected_unknown (M O E : list string) : list string :=
  filter (fun x => negb (allowed M O x)) E.

(** M - E, as a sequence. *)
Definition expected_missing (M E : list string) : list string :=
  filter (fun x => negb (py_in x E)) M.

(** The report a completed audit prints and the status it exits with. *)
Definition expected_report (args : Args) (U Mi : list string) : list string :=
  map (unknown_line args) U ++ map (missing_line args) Mi.

Definition expected_status (U Mi : list string) : Z :=
  if nonempty U || nonempty Mi then 1%Z else 0%Z.

Definition scenario_world : World :=
  world_of (inr ["0000000000001139 T foo_debug"]) (inr ["foo_init"]).

(** ** Characters of a string *)

(** Every character of [s] passes the test [p]. *)
Fixpoint string_forall (p : ascii -> bool) (s : string) : bool :=
  match s with
  | EmptyString => true
  | String c r => p c && string_forall p r
  end.

(** A name with a character in it, none of them a space or a ['#']. *)
Definition plain_char (c : ascii) : bool := negb (isspace c) && negb (Ascii.eqb c "#").

Definition plain_name (x : string) : bool := truthy x && string_forall plain_char x.

(** A name with a character in it, none of them a space. *)
Definition spaceless_name (x : string) : bool :=
  truthy x && string_forall (fun c => negb (isspace c)) x.

(** ** scons/gallium.py: installing a shared library *)

Module Gallium.

(** What [install] and [install_shared_library] ask of the SCons
    environment and of the Python library.  Nodes, the result of
    [FindIxes] and the items of a version are kept abstract; each method of
    the environment is the function from its arguments to what it returns. *)
Record SConsEnv (node ixes ver : Type) : Type := mkEnv {
  abspath : string;                           (* env.Dir('#.').srcnode().abspath *)
  build_dir : string;                         (* env['build_dir'] *)
  SHLIBSUFFIX : string;                       (* env['SHLIBSUFFIX'] *)
  path_join : list string -> string;          (* os.path.join of the parts *)
  str_node : node -> string;                  (* str(source) *)
  str_ver : ver -> string;                    (* str(v), for an item of version *)
  FindIxes : list node -> string -> string -> ixes;
  Install : string -> ixes -> list node;      (* env.Install(dir, source) *)
  InstallAs : string -> node -> list node;    (* env.InstallAs(target, source) *)
  Command : string -> list node -> list node  (* env.Command(target, source, symlink) *)
}.

Arguments abspath {node ixes ver} _.
Arguments build_dir {node ixes ver} _.
Arguments SHLIBSUFFIX {node ixes ver} _.
Arguments path_join {node ixes ver} _ _.
Arguments str_node {node ixes ver} _ _.
Arguments str_ver {node ixes ver} _ _.
Arguments FindIxes {node ixes ver} _ _ _ _.
Arguments Install {node ixes ver} _ _ _.
Arguments InstallAs {node ixes ver} _ _ _.
Arguments Command {node ixes ver} _ _ _.

(** The calls that add to the build: the script's trace. *)
Inductive call (node ixes : Type) : Type :=
| CallInstall (dir : string) (source : ixes)
| CallInstallAs (target : string) (source : node)
| CallCommand (target : string) (source : list node).

Arguments CallInstall {node ixes} dir source.
Arguments CallInstallAs {node ixes} target source.
Arguments CallCommand {node ixes} target source.

(** The local variables of the loop of [install_shared_library], with the
    trace.  [last] is not bound before the first [InstallAs]. *)
Record locals (node ixes : Type) : Type := mkLocals {
  version : list string;
  last : list node;
  targets : list node;
  calls : list (call node ixes)
}.

Arguments mkLocals {node ixes} version last targets calls.
Arguments version {node ixes} _.
Arguments last {node ixes} _.
Arguments targets {node ixes} _.
Arguments calls {node ixes} _.

Section Install.

Context {node ixes ver : Type} (env : SConsEnv node ixes ver).

(** [install(env, source, subdir)], with the call it makes. *)
Definition install (source : ixes) (subdir : string) : list node * list (call node ixes) :=
  let target_dir := path_join env [abspath env; build_dir env; subdir] in
  (Install env target_dir source, [CallInstall target_dir source]).

(** [while len(version): ...], at most [fuel] times round. *)
Fixpoint while_version (fuel : nat) (target_dir : string) (source : node)
         (st : locals node ixes) : locals node ixes :=
  match fuel with
  | O => st
  | S fuel' =>
      match version st with
      | [] => st
      | _ :: _ =>
          let version' := removelast (version st) in
          let target_name := String.concat "." (str_node env source :: version') in
          let target := path_join env [target_dir; target_name] in
          let last' := Command env target (last st) in
          while_version fuel' target_dir source
            (mkLocals version' last' (targets st ++ last')
                      (calls st ++ [CallCommand target (last st)]))
      end
  end.

(** The body of [for source in sources]. *)
Definition for_source (install_dir : string) (st : locals node ixes) (source : node)
  : locals node ixes :=
  let target_dir := path_join env [install_dir; "lib"] in
  let target_name := String.concat "." (str_node env source :: version st) in
  let target := path_join env [target_dir; target_name] in
  let last' := InstallAs env target source in
  let st' := mkLocals (version st) last' (targets st ++ last')
                      (calls st ++ [CallInstallAs target source]) in
  while_version (length (version st')) target_dir source st'.

(** [install_shared_library(env, sources, version)]: the targets it returns
    and the calls it has made. *)
Definition install_shared_library (sources : list node) (version0 : list ver)
  : list node * list (call node ixes) :=
  let install_dir := path_join env [abspath env; build_dir env] in
  let version1 := map (str_ver env) version0 in
  if String.eqb (SHLIBSUFFIX env) ".dll" then
    let dlls := FindIxes env sources "SHLIBPREFIX" "SHLIBSUFFIX" in
    let '(bin_targets, bin_calls) := install dlls "bin" in
    let libs := FindIxes env sources "LIBPREFIX" "LIBSUFFIX" in
    let '(lib_targets, lib_calls) := install libs "lib" in
    (bin_targets ++ lib_targets, bin_calls ++ lib_calls)
  else
    let st := fold_left (for_source install_dir) sources (mkLocals version1 [] [] []) in
    (targets st, calls st).

(** What a call returned. *)
Definition returned (c : call node ixes) : list node :=
  match c with
  | CallInstall dir source => Install env dir source
  | CallInstallAs target source => InstallAs env target source
  | CallCommand target source => Command env target source
  end.

(** The directory or the file a call names. *)
Definition call_target (c : call node ixes) : string :=
  match c with
  | CallInstall dir _ => dir
  | CallInstallAs target _ => target
  | CallCommand target _ => target
  end.

(** Each call after the first is a [Command] whose source is what the call
    before it returned. *)
Fixpoint chained (prev : call node ixes) (cs : list (call node ixes)) : Prop :=
  match cs with
  | [] => True
  | c :: rest =>
      (exists target, c = CallCommand target (returned prev)) /\ chained c rest
  end.

(** The directory the libraries go to. *)
Definition lib_dir : string :=
  path_join env [path_join env [abspath env; build_dir env]; "lib"].

(** The path, in [target_dir], of the name made of a source and the first
    [k] items of a version. *)
Definition versioned_name (target_dir : string) (source : node) (v : list string) (k : nat)
  : string :=
  path_join env [target_dir; String.concat "." (str_node env source :: firstn k v)].

End Install.

(** The loop of [check_functions]: [CheckFunc function] is the truth value
    of [conf.CheckFunc(function)], [checked] the functions the configure
    context was asked about so far. *)
Fixpoint check_functions_loop (CheckFunc : string -> bool) (functions : list string)
         (have_functions : bool) (checked : list string) : bool * list string :=
  match functions with
  | [] => (have_functions, checked)
  | function :: rest =>
      if negb (CheckFunc function)
      then check_functions_loop CheckFunc rest false (checked ++ [function])
      else check_functions_loop CheckFunc rest have_functions (checked ++ [function])
  end.

(** [check_functions(env, functions)]: check if all of the functions exist.
    The value returned, and the functions checked, in order. *)
Definition check_functions (CheckFunc : string -> bool) (functions : list string)
  : bool * list string :=
  check_functions_loop CheckFunc functions true [].

(** A sample environment: nodes are file names, the items of a version are
    strings already, paths are joined with a slash. *)
Definition sample_env (suffix : string) : SConsEnv string (list string) string :=
  mkEnv string (list string) string "/src" "build/linux" suffix
        (String.concat "/") (fun n => n) (fun v => v)
        (fun sources _ _ => sources)
        (fun dir sources => map (fun n => (dir ++ "/" ++ n)%string) sources)
        (fun target _ => [target])
        (fun target _ => [target]).

End Gallium.

(** ** Proof steps that recur *)

Ltac open_policy_line :=
  unfold policy_line;
  change (strip (before_hash ?r)) with (stripped r);
  change (split (stripped ?r)) with (fields_of r).

Ltac unfold_store :=
  unfold with_lib_symbols, with_mandatory_symbols, with_optional_symbols,
    with_unknown_symbols, with_missing_symbols, with_stdout; simpl.

Ltac unfold_monad := unfold bind, ret, get, modify, print, exit, lift.

(** ** Strings: membership, tokens and trimming *)

Lemma py_in_In (x : string) (l : list string) : py_in x l = true <-> In x l.
Proof.
  unfold py_in. rewrite existsb_exists. split.
  - intros [y [Hin Heq]]. apply String.eqb_eq in Heq. now subst.
  - intros Hin. exists x. split; [assumption | apply String.eqb_refl].
Qed.

Lemma py_in_not_In (x : string) (l : list string) : py_in x l = false <-> ~ In x l.
Proof.
  rewrite <- py_in_In. destruct (py_in x l); split; congruence.
Qed.

Lemma truthy_true (s : string) : truthy s = true <-> s <> "".
Proof. destruct s; simpl; split; congruence. Qed.

Lemma append_not_empty (t : string) (c : ascii) : (t ++ String c "")%string <> "".
Proof. destruct t; discriminate. Qed.

(** Every token of [split] has a character. *)
Lemma split_from_truthy (s tok : string) :
  Forall (fun t => truthy t = true) (split_from tok s).
Proof.
  revert tok. induction s as [|c r IH]; intros tok; simpl.
  - destruct tok; simpl; auto.
  - destruct (isspace c).
    + apply Forall_app. split; [destruct tok; simpl; auto | apply IH].
    + apply IH.
Qed.

Lemma split_truthy (s : string) : Forall (fun t => truthy t = true) (split s).
Proof. apply split_from_truthy. Qed.

(** A token under way always comes out. *)
Lemma split_from_pending (s tok : string) : tok <> "" -> split_from tok s <> [].
Proof.
  revert tok. induction s as [|c r IH]; intros tok Htok; simpl.
  - destruct tok; [congruence | discriminate].
  - destruct (isspace c).
    + destruct tok; [congruence | discriminate].
    + apply IH, append_not_empty.
Qed.

Lemma lstrip_head (s : string) :
  lstrip s = "" \/ exists c r, lstrip s = String c r /\ isspace c = false.
Proof.
  induction s as [|c r IH]; simpl.
  - now left.
  - destruct (isspace c) eqn:Hc; [assumption |].
    right. now exists c, r.
Qed.

Lemma rstrip_head (c : ascii) (r : string) :
  isspace c = false -> exists r', rstrip (String c r) = String c r'.
Proof.
  intros Hc. simpl. destruct (rstrip r) as [|c' r'].
  - rewrite Hc. now exists "".
  - now exists (String c' r').
Qed.

(** A trimmed line with a character in it has a token. *)
Lemma split_strip_not_nil (s : string) : strip s <> "" -> split (strip s) <> [].
Proof.
  unfold strip. intros Hne.
  destruct (lstrip_head s) as [He | [c [r [He Hc]]]]; rewrite He in *.
  - now simpl in Hne.
  - destruct (rstrip_head c r Hc) as [r' Hr]. rewrite Hr.
    unfold split. simpl. rewrite Hc. apply split_from_pending. discriminate.
Qed.

Lemma split_empty : split "" = [].
Proof. reflexivity. Qed.

(** ** One line of the policy file *)

Lemma fields_not_blank (raw : string) : fields_of raw <> [] -> truthy (stripped raw) = true.
Proof.
  unfold fields_of. destruct (stripped raw); [now rewrite split_empty | reflexivity].
Qed.

Lemma not_blank_fields (raw : string) : truthy (stripped raw) = true -> fields_of raw <> [].
Proof.
  intros H. apply truthy_true in H. now apply split_strip_not_nil.
Qed.

Lemma policy_line_blank (args : Args) (raw : string) (s : Store) :
  stripped raw = "" -> policy_line args raw s = Normal tt s.
Proof. open_policy_line. intros ->. reflexivity. Qed.

Lemma policy_line_mandatory (args : Args) (raw sym : string) (s : Store) :
  fields_of raw = [sym] ->
  policy_line args raw s
  = Normal tt (with_mandatory_symbols (mandatory_symbols s ++ [sym]) s).
Proof.
  intros Hf. open_policy_line.
  rewrite fields_not_blank by (rewrite Hf; discriminate).
  rewrite Hf. reflexivity.
Qed.

Lemma policy_line_optional (args : Args) (raw sym : string) (s : Store) :
  fields_of raw = [qualifier_optional; sym] ->
  policy_line args raw s
  = Normal tt (with_optional_symbols (optional_symbols s ++ [sym]) s).
Proof.
  intros Hf. open_policy_line.
  rewrite fields_not_blank by (rewrite Hf; discriminate).
  rewrite Hf. reflexivity.
Qed.

Lemma policy_line_bad_qualifier (args : Args) (raw q sym : string) (s : Store) :
  fields_of raw = [q; sym] -> q <> qualifier_optional ->
  policy_line args raw s
  = SystemExit 1 (with_stdout
      (stdout s ++ [(symbols_file args ++ ": invalid qualifier: " ++ q)%string]) s).
Proof.
  intros Hf Hq. open_policy_line.
  rewrite fields_not_blank by (rewrite Hf; discriminate).
  assert (Ht : truthy q = true).
  { pose proof (split_truthy (stripped raw)) as Hall.
    change (split (stripped raw)) with (fields_of raw) in Hall.
    rewrite Hf in Hall. now inversion Hall. }
  apply String.eqb_neq in Hq.
  rewrite Hf. unfold bind, ret, print, modify, exit. simpl.
  rewrite Ht, Hq. reflexivity.
Qed.

Lemma policy_line_bad_count (args : Args) (raw : string) (s : Store) :
  stripped raw <> "" -> 3 <= length (fields_of raw) ->
  policy_line args raw s
  = SystemExit 1 (with_stdout
      (stdout s ++ [(symbols_file args ++ ": invalid format: " ++ stripped raw)%string]) s).
Proof.
  intros Hne Hlen. open_policy_line.
  apply truthy_true in Hne. rewrite Hne.
  destruct (fields_of raw) as [|f0 [|f1 [|f2 rest]]]; simpl in Hlen; try lia.
  reflexivity.
Qed.

(** The shape of the token list of a line that is not blank. *)
Lemma fields_shape (raw : string) :
  truthy (stripped raw) = true ->
  (exists sym, fields_of raw = [sym])
  \/ (exists q sym, fields_of raw = [q; sym])
  \/ 3 <= length (fields_of raw).
Proof.
  intros H. apply not_blank_fields in H.
  destruct (fields_of raw) as [|f0 [|f1 [|f2 rest]]]; [congruence | | |].
  - left. now exists f0.
  - right. left. now exists f0, f1.
  - right. right. simpl. lia.
Qed.

Lemma rejected_spec (raw : string) :
  rejected raw = true <->
  stripped raw <> ""
  /\ (3 <= length (fields_of raw)
      \/ exists q sym, fields_of raw = [q; sym] /\ q <> qualifier_optional).
Proof.
  unfold rejected. rewrite andb_true_iff, orb_true_iff, andb_true_iff.
  rewrite truthy_true, Nat.leb_le, Nat.eqb_eq, negb_true_iff, String.eqb_neq.
  split; intros [Hne Hc]; (split; [assumption |]).
  - destruct Hc as [Hc | [Hlen Hq]]; [now left | right].
    destruct (fields_of raw) as [|f0 [|f1 [|f2 rest]]]; try discriminate.
    now exists f0, f1.
  - destruct Hc as [Hc | [q [sym [Hf Hq]]]]; [now left | right].
    rewrite Hf. now split.
Qed.

(** What the loop body does with a rejected line. *)
Lemma policy_line_rejected (args : Args) (raw : string) (s : Store) :
  rejected raw = true ->
  policy_line args raw s
  = SystemExit 1 (with_stdout (stdout s ++ [error_message args raw]) s).
Proof.
  intros H. apply rejected_spec in H. destruct H as [Hne [Hlen | [q [sym [Hf Hq]]]]].
  - rewrite (policy_line_bad_count args raw s Hne Hlen). unfold error_message.
    destruct (fields_of raw) as [|f0 [|f1 [|f2 rest]]]; simpl in Hlen; try lia.
    reflexivity.
  - rewrite (policy_line_bad_qualifier args raw q sym s Hf Hq).
    unfold error_message. now rewrite Hf.
Qed.

(** What the loop body does with an accepted line. *)
Lemma policy_line_accepted (args : Args) (raw : string) (s : Store) :
  rejected raw = false ->
  policy_line args raw s
  = Normal tt
      (with_optional_symbols (optional_symbols s ++ declared_optional [raw])
         (with_mandatory_symbols (mandatory_symbols s ++ declared_mandatory [raw]) s)).
Proof.
  intros Hacc. unfold declared_optional, declared_mandatory. simpl.
  destruct (truthy (stripped raw)) eqn:Hb.
  - destruct (fields_shape raw Hb) as [[sym Hf] | [[q [sym Hf]] | Hlen]].
    + rewrite (policy_line_mandatory args raw sym s Hf), Hf. simpl.
      destruct s; unfold with_optional_symbols, with_mandatory_symbols; simpl.
      now rewrite !app_nil_r.
    + destruct (String.eqb_spec q qualifier_optional) as [-> | Hq].
      * rewrite (policy_line_optional args raw sym s Hf), Hf. simpl.
        destruct s; unfold with_optional_symbols, with_mandatory_symbols; simpl.
        now rewrite !app_nil_r.
      * exfalso. assert (rejected raw = true); [| congruence].
        apply rejected_spec. split; [now apply truthy_true |].
        right. now exists q, sym.
    + exfalso. assert (rejected raw = true); [| congruence].
      apply rejected_spec. split; [now apply truthy_true | now left].
  - assert (He : stripped raw = "") by (destruct (stripped raw); [reflexivity | discriminate]).
    rewrite (policy_line_blank args raw s He). unfold fields_of. rewrite He, split_empty.
    simpl. destruct s; unfold with_optional_symbols, with_mandatory_symbols; simpl.
    now rewrite !app_nil_r.
Qed.

(** ** The loops *)

Lemma for_each_app {A : Type} (l1 l2 : list A) (body : A -> M unit) (s : Store) :
  for_each (l1 ++ l2) body s = (for_each l1 body ;; for_each l2 body) s.
Proof.
  revert s. induction l1 as [|x l1 IH]; intros s; simpl.
  - reflexivity.
  - unfold bind in *. destruct (body x s); auto.
Qed.

(** The loop over the policy file when every line is accepted. *)
Lemma load_accepted (args : Args) (lines : list string) (s : Store) :
  Forall (fun raw => rejected raw = false) lines ->
  for_each lines (policy_line args) s
  = Normal tt
      (with_optional_symbols (optional_symbols s ++ declared_optional lines)
         (with_mandatory_symbols (mandatory_symbols s ++ declared_mandatory lines) s)).
Proof.
  intros Hall. revert s. induction Hall as [|raw rest Hraw Hrest IH]; intros s.
  - simpl. unfold ret. destruct s. unfold_store. now rewrite !app_nil_r.
  - simpl. unfold bind. rewrite (policy_line_accepted args raw s Hraw), IH.
    unfold declared_optional, declared_mandatory. simpl.
    destruct s. unfold_store. now rewrite !app_nil_r, !app_assoc.
Qed.

(** The loop over the policy file stops at the first rejected line. *)
Lemma load_rejected (args : Args) (pre post : list string) (bad : string) (s : Store) :
  Forall (fun raw => rejected raw = false) pre -> rejected bad = true ->
  for_each (pre ++ bad :: post) (policy_line args) s
  = SystemExit 1
      (with_stdout (stdout s ++ [error_message args bad])
         (with_optional_symbols (optional_symbols s ++ declared_optional pre)
            (with_mandatory_symbols (mandatory_symbols s ++ declared_mandatory pre) s))).
Proof.
  intros Hpre Hbad. rewrite for_each_app. unfold bind at 1.
  rewrite (load_accepted args pre s Hpre). simpl. unfold bind.
  rewrite policy_line_rejected by assumption. reflexivity.
Qed.

(** The body of the loop over the exported symbols, in one step. *)
Lemma classify_spec (x : string) (s : Store) :
  classify x s
  = Normal tt
      (if allowed (mandatory_symbols s) (optional_symbols s) x then s
       else with_unknown_symbols (unknown_symbols s ++ [x]) s).
Proof.
  unfold classify, allowed. unfold_monad.
  destruct (py_in x (mandatory_symbols s)); [reflexivity |].
  destruct (py_in x (optional_symbols s)); [reflexivity |].
  destruct (py_in x PLATFORM_SYMBOLS); reflexivity.
Qed.

(** The loop over the exported symbols. *)
Lemma classify_loop (E : list string) (s : Store) :
  for_each E classify s
  = Normal tt
      (with_unknown_symbols
         (unknown_symbols s
          ++ expected_unknown (mandatory_symbols s) (optional_symbols s) E) s).
Proof.
  revert s. induction E as [|x E IH]; intros s.
  - simpl. unfold ret. destruct s. unfold_store. now rewrite app_nil_r.
  - simpl. unfold bind. rewrite classify_spec, IH.
    unfold expected_unknown. simpl.
    destruct (allowed (mandatory_symbols s) (optional_symbols s) x) eqn:Ha; simpl.
    + reflexivity.
    + destruct s. unfold_store. now rewrite <- app_assoc.
Qed.

(** A loop that prints one line for each element. *)
Lemma print_loop (f : string -> string) (xs : list string) (s : Store) :
  for_each xs (fun x => print (f x)) s
  = Normal tt (with_stdout (stdout s ++ map f xs) s).
Proof.
  revert s. induction xs as [|x xs IH]; intros s.
  - simpl. unfold ret. destruct s. unfold_store. now rewrite app_nil_r.
  - simpl. unfold bind. unfold print at 1. unfold modify. rewrite IH.
    destruct s. unfold_store. now rewrite <- app_assoc.
Qed.

(** ** The audit, the report and the whole run *)

Lemma audit_spec (s : Store) :
  audit s
  = Normal tt
      (with_missing_symbols (expected_missing (mandatory_symbols s) (lib_symbols s))
         (with_unknown_symbols
            (expected_unknown (mandatory_symbols s) (optional_symbols s) (lib_symbols s))
            s)).
Proof.
  unfold audit. unfold bind, modify, get. rewrite classify_loop.
  destruct s. unfold_store. reflexivity.
Qed.

Lemma report_spec (args : Args) (s : Store) :
  report args s
  = SystemExit (expected_status (unknown_symbols s) (missing_symbols s))
      (with_stdout
         (stdout s ++ expected_report args (unknown_symbols s) (missing_symbols s)) s).
Proof.
  unfold report. unfold bind at 1. unfold get at 1. unfold bind at 1.
  rewrite print_loop. unfold bind at 1. unfold get at 1. unfold bind at 1.
  rewrite print_loop. unfold expected_status, expected_report, exit.
  destruct s. unfold_store.
  destruct (nonempty unknown_symbols0 || nonempty missing_symbols0);
    now rewrite <- app_assoc.
Qed.

(** A run in which the tool answers and every policy line is accepted. *)
Lemma run_completed (w : World) (args : Args) (E L : list string) :
  get_symbols w (nm args) (lib args) = inr E ->
  file_lines w (symbols_file args) = inr L ->
  Forall (fun raw => rejected raw = false) L ->
  let M := declared_mandatory L in
  let O := declared_optional L in
  let U := expected_unknown M O E in
  let Mi := expected_missing M E in
  run w args
  = SystemExit (expected_status U Mi) (mkStore E M O U Mi (expected_report args U Mi)).
Proof.
  intros HE HL Hacc. simpl. unfold run, main.
  unfold bind at 1. rewrite HE. unfold lift at 1.
  unfold bind at 1. unfold modify at 1.
  unfold bind at 1. unfold modify at 1.
  unfold bind at 1. unfold modify at 1.
  unfold bind at 1. rewrite HL. unfold lift at 1.
  unfold bind at 1. rewrite (load_accepted args L _ Hacc).
  unfold bind at 1. rewrite audit_spec. rewrite report_spec.
  reflexivity.
Qed.

(** A run in which the tool answers and the policy file has a rejected line. *)
Lemma run_rejected (w : World) (args : Args) (E pre post : list string) (bad : string) :
  get_symbols w (nm args) (lib args) = inr E ->
  file_lines w (symbols_file args) = inr (pre ++ bad :: post) ->
  Forall (fun raw => rejected raw = false) pre -> rejected bad = true ->
  run w args
  = SystemExit 1
      (mkStore E (declared_mandatory pre) (declared_optional pre) [] []
               [error_message args bad]).
Proof.
  intros HE HL Hpre Hbad. unfold run, main.
  unfold bind at 1. rewrite HE. unfold lift at 1.
  unfold bind at 1. unfold modify at 1.
  unfold bind at 1. unfold modify at 1.
  unfold bind at 1. unfold modify at 1.
  unfold bind at 1. rewrite HL. unfold lift at 1.
  unfold bind at 1. rewrite (load_rejected args pre post bad _ Hpre Hbad).
  reflexivity.
Qed.

(** A run in which listing the symbols raises. *)
Lemma run_tool_failure (w : World) (args : Args) (e : exception) :
  get_symbols w (nm args) (lib args) = inl e ->
  run w args = Uncaught e empty_store.
Proof.
  intros HE. unfold run, main. unfold bind at 1. rewrite HE. reflexivity.
Qed.

(** A run in which the policy file cannot be read. *)
Lemma run_file_failure (w : World) (args : Args) (E : list string) (e : exception) :
  get_symbols w (nm args) (lib args) = inr E ->
  file_lines w (symbols_file args) = inl e ->
  run w args = Uncaught e (with_lib_symbols E empty_store).
Proof.
  intros HE HL. unfold run, main.
  unfold bind at 1. rewrite HE. unfold lift at 1.
  unfold bind at 1. unfold modify at 1.
  unfold bind at 1. unfold modify at 1.
  unfold bind at 1. unfold modify at 1.
  unfold bind at 1. rewrite HL. reflexivity.
Qed.

(** The lines are all accepted, or there is a first rejected one. *)
Lemma first_rejected (L : list string) :
  Forall (fun raw => rejected raw = false) L
  \/ exists pre bad post,
       L = pre ++ bad :: post
       /\ Forall (fun raw => rejected raw = false) pre /\ rejected bad = true.
Proof.
  induction L as [|raw L IH].
  - left. constructor.
  - destruct (rejected raw) eqn:Hr.
    + right. exists [], raw, L. split; [reflexivity | split; [apply Forall_nil | exact Hr]].
    + destruct IH as [Hall | [pre [bad [post [-> [Hpre Hbad]]]]]].
      * left. now constructor.
      * right. exists (raw :: pre), bad, post.
        split; [reflexivity | split; [now constructor | assumption]].
Qed.

(** The unknown symbols a run ends with, however it ends. *)
Lemma run_unknown_symbols (w : World) (args : Args) :
  unknown_symbols (final_store (run w args)) = []
  \/ exists M O E, unknown_symbols (final_store (run w args)) = expected_unknown M O E.
Proof.
  destruct (get_symbols w (nm args) (lib args)) as [e | E] eqn:HE.
  - left. now rewrite (run_tool_failure w args e HE).
  - destruct (file_lines w (symbols_file args)) as [e | L] eqn:HL.
    + left. now rewrite (run_file_failure w args E e HE HL).
    + destruct (first_rejected L) as [Hall | [pre [bad [post [-> [Hpre Hbad]]]]]].
      * right. exists (declared_mandatory L), (declared_optional L), E.
        now rewrite (run_completed w args E L HE HL Hall).
      * left. now rewrite (run_rejected w args E pre post bad HE HL Hpre Hbad).
Qed.

(** ** Lists: filtering and counting *)

Lemma count_occ_filter_kept (f : string -> bool) (l : list string) (x : string) :
  f x = true -> count_occ string_dec (filter f l) x = count_occ string_dec l x.
Proof.
  intros Hx. induction l as [|y l IH]; simpl; [reflexivity |].
  destruct (string_dec y x) as [-> | Hne].
  - rewrite Hx. simpl. destruct (string_dec x x); congruence.
  - destruct (f y); simpl; [| assumption].
    destruct (string_dec y x); congruence.
Qed.

Lemma count_occ_filter_dropped (f : string -> bool) (l : list string) (x : string) :
  f x = false -> count_occ string_dec (filter f l) x = 0.
Proof.
  intros Hx. apply count_occ_not_In. rewrite filter_In. intros [_ H]. congruence.
Qed.

Lemma allowed_spec (M O : list string) (x : string) :
  allowed M O x = false <-> ~ In x M /\ ~ In x O /\ ~ In x PLATFORM_SYMBOLS.
Proof.
  unfold allowed. rewrite !orb_false_iff, !py_in_not_In. tauto.
Qed.

Lemma expected_status_zero (U Mi : list string) :
  expected_status U Mi = 0%Z <-> U = [] /\ Mi = [].
Proof.
  unfold expected_status. destruct U, Mi; simpl; split; try congruence; try tauto.
  all: intros [? ?]; congruence.
Qed.

Lemma expected_status_one (U Mi : list string) :
  expected_status U Mi = 1%Z <-> U <> [] \/ Mi <> [].
Proof.
  unfold expected_status. destruct U, Mi; simpl; split; try congruence; try tauto.
  all: try (intros _; (left; discriminate) || (right; discriminate)).
Qed.

(** ** The audit *)

(** C1: for every policy (mandatory list M, optional list O) and every
    exported sequence E, the audit leaves in [unknown_symbols] the sequence
    E with the elements of M, of O and of the platform list removed: the
    order of E is kept, a symbol is unknown iff it is exported and in none of
    the three, and an unknown symbol occurs as often as E exports it. *)
Theorem audit_unknown_is_exported_minus_allowed (s : Store) :
  let M := mandatory_symbols s in
  let O := optional_symbols s in
  let E := lib_symbols s in
  exists s',
    audit s = Normal tt s'
    /\ unknown_symbols s'
       = filter (fun x => negb (py_in x M || py_in x O || py_in x PLATFORM_SYMBOLS)) E
    /\ (forall x, In x (unknown_symbols s')
                  <-> In x E /\ ~ In x M /\ ~ In x O /\ ~ In x PLATFORM_SYMBOLS)
    /\ (forall x, count_occ string_dec (unknown_symbols s') x
                  = if py_in x M || py_in x O || py_in x PLATFORM_SYMBOLS then 0
                    else count_occ string_dec E x).
Proof.
  intros M O E. eexists. split; [apply audit_spec |].
  unfold with_missing_symbols, with_unknown_symbols.
  cbn [unknown_symbols]. fold M O E. unfold expected_unknown.
  change (fun x => negb (allowed M O x))
    with (fun x => negb (py_in x M || py_in x O || py_in x PLATFORM_SYMBOLS)).
  split; [reflexivity | split].
  - intros x. rewrite filter_In, negb_true_iff.
    change (py_in x M || py_in x O || py_in x PLATFORM_SYMBOLS) with (allowed M O x).
    rewrite allowed_spec. tauto.
  - intros x.
    destruct (py_in x M || py_in x O || py_in x PLATFORM_SYMBOLS) eqn:Hx.
    + apply count_occ_filter_dropped. now rewrite Hx.
    + apply count_occ_filter_kept. now rewrite Hx.
Qed.

(** C2: for every mandatory list M and exported sequence E, the audit
    leaves in [missing_symbols] the symbols of M that E does not export, in
    the order the policy declares them: a symbol is missing iff it is
    mandatory and not exported. *)
Theorem audit_missing_is_mandatory_minus_exported (s : Store) :
  let M := mandatory_symbols s in
  let E := lib_symbols s in
  exists s',
    audit s = Normal tt s'
    /\ missing_symbols s' = filter (fun sym => negb (py_in sym E)) M
    /\ (forall x, In x (missing_symbols s') <-> In x M /\ ~ In x E)
    /\ mandatory_symbols s' = M /\ lib_symbols s' = E.
Proof.
  intros M E. eexists. split; [apply audit_spec |].
  unfold with_missing_symbols, with_unknown_symbols.
  cbn [missing_symbols mandatory_symbols lib_symbols]. fold M E.
  split; [reflexivity | split; [| split; reflexivity]].
  intros x. unfold expected_missing. rewrite filter_In, negb_true_iff, py_in_not_In. tauto.
Qed.

(** C3: a run that completes the audit prints one line
    [<lib>: unknown symbol exported: <symbol>] for each unknown symbol, then
    one line [<lib>: missing symbol: <symbol>] for each missing symbol, each
    group in the order of the audit, and nothing else; it exits with status
    1 when one of the two lists has an element and with status 0 otherwise. *)
Theorem report_lines_then_status (w : World) (args : Args) (E L : list string) :
  get_symbols w (nm args) (lib args) = inr E ->
  file_lines w (symbols_file args) = inr L ->
  Forall (fun raw => rejected raw = false) L ->
  let r := run w args in
  let U := unknown_symbols (final_store r) in
  let Mi := missing_symbols (final_store r) in
  U = expected_unknown (declared_mandatory L) (declared_optional L) E
  /\ Mi = expected_missing (declared_mandatory L) E
  /\ printed r
     = map (fun symbol => (lib args ++ ": unknown symbol exported: " ++ symbol)%string) U
       ++ map (fun symbol => (lib args ++ ": missing symbol: " ++ symbol)%string) Mi
  /\ (exists s', r = SystemExit (if nonempty U || nonempty Mi then 1%Z else 0%Z) s')
  /\ (U <> [] \/ Mi <> [] -> exit_status r = 1%Z)
  /\ (U = [] /\ Mi = [] -> exit_status r = 0%Z).
Proof.
  intros HE HL Hacc. intros r U Mi. subst r U Mi.
  rewrite (run_completed w args E L HE HL Hacc). simpl.
  split; [reflexivity | split; [reflexivity | split; [reflexivity | split]]].
  - eexists. reflexivity.
  - split; intros H.
    + now apply expected_status_one.
    + now apply expected_status_zero.
Qed.

Lemma report_lines_then_status_witness :
  printed (run scenario_world sample_args)
  = ["libfoo.so: unknown symbol exported: foo_debug";
     "libfoo.so: missing symbol: foo_init"]
  /\ exit_status (run scenario_world sample_args) = 1%Z.
Proof.
  destruct (report_lines_then_status scenario_world sample_args
              ["foo_debug"] ["foo_init"] eq_refl eq_refl
              ltac:(repeat constructor))
    as (HU & HM & Hp & _ & H1 & _).
  split.
  - rewrite Hp, HU, HM. reflexivity.
  - apply H1. left. rewrite HU. discriminate.
Defined.

(** ** The policy file *)

(** C4 (amended): a policy line is first cut at its first ['#'] and
    trimmed, and is skipped when nothing is left.  Otherwise the loop body
    fails, printing one message and calling [exit(1)], exactly when the line
    has three tokens or more or two tokens the first of which is not
    ["(optional)"].  For three tokens or more the message is the file path,
    [": invalid format: "] and the line as cut and trimmed, not the line as
    it stands in the file; for a wrong qualifier it is the file path,
    [": invalid qualifier: "] and that first token alone, not the line.  A
    line of one token adds it to the mandatory symbols, and a line
    ["(optional)" symbol] adds the symbol to the optional ones.  When the
    symbols were listed and the lines before were accepted, the run then
    ends with status 1 and the message as its whole output: no report. *)
Theorem policy_line_format_errors (args : Args) (raw : string) (s : Store) :
  let line := strip (before_hash raw) in
  let fields := split line in
  (line = "" -> policy_line args raw s = Normal tt s)
  /\ ((exists code s', policy_line args raw s = SystemExit code s')
      <-> line <> ""
          /\ (3 <= length fields
              \/ exists q sym, fields = [q; sym] /\ q <> "(optional)"))
  /\ (line <> "" -> 3 <= length fields ->
      policy_line args raw s
      = SystemExit 1 (with_stdout
          (stdout s ++ [(symbols_file args ++ ": invalid format: " ++ line)%string]) s))
  /\ (forall q sym, fields = [q; sym] -> q <> "(optional)" ->
      policy_line args raw s
      = SystemExit 1 (with_stdout
          (stdout s ++ [(symbols_file args ++ ": invalid qualifier: " ++ q)%string]) s))
  /\ (forall sym, fields = [sym] ->
      policy_line args raw s
      = Normal tt (with_mandatory_symbols (mandatory_symbols s ++ [sym]) s))
  /\ (forall sym, fields = ["(optional)"; sym] ->
      policy_line args raw s
      = Normal tt (with_optional_symbols (optional_symbols s ++ [sym]) s))
  /\ (forall w E pre post,
      get_symbols w (nm args) (lib args) = inr E ->
      file_lines w (symbols_file args) = inr (pre ++ raw :: post) ->
      Forall (fun l => rejected l = false) pre ->
      (exists code s', policy_line args raw s = SystemExit code s') ->
      exit_status (run w args) = 1%Z
      /\ exists msg, printed (run w args) = [msg]
                     /\ policy_line args raw s
                        = SystemExit 1 (with_stdout (stdout s ++ [msg]) s)).
Proof.
  intros line fields.
  change line with (stripped raw). change fields with (fields_of raw).
  assert (Hiff : (exists code s', policy_line args raw s = SystemExit code s')
                 <-> rejected raw = true).
  { split.
    - intros [code [s' H]]. destruct (rejected raw) eqn:Hr; [reflexivity |].
      rewrite (policy_line_accepted args raw s Hr) in H. discriminate.
    - intros Hr. rewrite (policy_line_rejected args raw s Hr). eauto. }
  split; [apply policy_line_blank |].
  split; [rewrite Hiff; apply rejected_spec |].
  split; [apply policy_line_bad_count |].
  split; [intros q sym Hf Hq; exact (policy_line_bad_qualifier args raw q sym s Hf Hq) |].
  split; [intros sym Hf; exact (policy_line_mandatory args raw sym s Hf) |].
  split; [intros sym Hf; exact (policy_line_optional args raw sym s Hf) |].
  intros w E pre post HE HL Hpre Hfail. apply Hiff in Hfail.
  rewrite (run_rejected w args E pre post raw HE HL Hpre Hfail).
  split; [reflexivity |].
  exists (error_message args raw). split; [reflexivity |].
  now apply policy_line_rejected.
Qed.

Lemma policy_line_format_errors_witness :
  policy_line sample_args "(optional) (optional) c" empty_store
  = SystemExit 1
      (with_stdout ["syms.txt: invalid format: (optional) (optional) c"] empty_store)
  /\ policy_line sample_args "(maybe) d  # no such qualifier" empty_store
     = SystemExit 1 (with_stdout ["syms.txt: invalid qualifier: (maybe)"] empty_store)
  /\ exit_status
       (run (world_of (inr []) (inr ["a"; "(maybe) d"; "b"])) sample_args) = 1%Z.
Proof.
  split; [| split].
  - apply (policy_line_format_errors sample_args "(optional) (optional) c" empty_store).
    + discriminate.
    + simpl. lia.
  - apply (policy_line_format_errors sample_args "(maybe) d  # no such qualifier"
             empty_store) with (sym := "d").
    + reflexivity.
    + discriminate.
  - apply (policy_line_format_errors sample_args "(maybe) d" empty_store)
      with (E := []) (pre := ["a"]) (post := ["b"]).
    + reflexivity.
    + reflexivity.
    + repeat constructor.
    + exists 1%Z, (with_stdout ["syms.txt: invalid qualifier: (maybe)"] empty_store).
      reflexivity.
Defined.

(** C4, as first stated, fails: the message for a line of three tokens
    holds the line as cut and trimmed, so the line as it stands in the file
    does not occur in it; the message for a wrong qualifier holds that token
    alone, so the line does not occur in it either, and two different lines
    with the same wrong qualifier print the same message. *)
Lemma format_error_messages_omit_the_line :
  policy_line sample_args "  a b c   # note" empty_store
  = SystemExit 1 (with_stdout ["syms.txt: invalid format: a b c"] empty_store)
  /\ String.index 0 "  a b c   # note" "syms.txt: invalid format: a b c" = None
  /\ policy_line sample_args "(maybe) d" empty_store
     = SystemExit 1 (with_stdout ["syms.txt: invalid qualifier: (maybe)"] empty_store)
  /\ String.index 0 "(maybe) d" "syms.txt: invalid qualifier: (maybe)" = None
  /\ policy_line sample_args "(maybe) e" empty_store
     = policy_line sample_args "(maybe) d" empty_store.
Proof.
  repeat split.
Qed.

(** C9: a line whose only token is ["(optional)"] is accepted: the token
    is added to the mandatory symbols as a symbol name, the optional symbols
    and the output are left as they are, and the loop goes on. *)
Theorem lone_qualifier_is_mandatory_symbol (args : Args) (raw : string) (s : Store) :
  split (strip (before_hash raw)) = ["(optional)"] ->
  policy_line args raw s
  = Normal tt (with_mandatory_symbols (mandatory_symbols s ++ ["(optional)"]) s)
  /\ rejected raw = false
  /\ declared_mandatory [raw] = ["(optional)"]
  /\ declared_optional [raw] = [].
Proof.
  intros Hf. change (fields_of raw = ["(optional)"]) in Hf.
  split; [exact (policy_line_mandatory args raw "(optional)" s Hf) |].
  unfold rejected, declared_mandatory, declared_optional. simpl.
  rewrite Hf. simpl. rewrite andb_false_r. auto.
Qed.

Lemma lone_qualifier_is_mandatory_symbol_witness :
  policy_line sample_args "  (optional)   # nothing follows" empty_store
  = Normal tt (with_mandatory_symbols ["(optional)"] empty_store).
Proof.
  apply (lone_qualifier_is_mandatory_symbol sample_args
           "  (optional)   # nothing follows" empty_store).
  reflexivity.
Defined.

(** ** The symbols of the library *)

Lemma get_symbols_loop_ok (lines symbols : list string) :
  Forall (fun line => length (split line) = 3) lines ->
  get_symbols_loop lines symbols
  = inr (symbols ++ map (fun line => nth 2 (split line) "") lines).
Proof.
  intros Hall. revert symbols. induction Hall as [|line rest Hline Hrest IH]; intros symbols.
  - simpl. now rewrite app_nil_r.
  - simpl. destruct (split line) as [|f0 [|f1 [|f2 [|f3 more]]]]; try discriminate.
    simpl. rewrite IH, <- app_assoc. reflexivity.
Qed.

Lemma unpack3_wrong_length (fields : list string) :
  length fields <> 3 -> unpack3 fields = inl ValueError.
Proof.
  destruct fields as [|f0 [|f1 [|f2 [|f3 more]]]]; simpl; intros H; try reflexivity.
  congruence.
Qed.

Lemma unpack3_error (fields : list string) (e : exception) :
  unpack3 fields = inl e -> e = ValueError.
Proof.
  destruct fields as [|f0 [|f1 [|f2 [|f3 more]]]]; simpl; congruence.
Qed.

Lemma get_symbols_loop_fails (lines symbols : list string) :
  Exists (fun line => length (split line) <> 3) lines ->
  get_symbols_loop lines symbols = inl ValueError.
Proof.
  intros Hex. revert symbols. induction Hex as [line rest Hbad | line rest Hrest IH];
    intros symbols; simpl.
  - now rewrite unpack3_wrong_length.
  - destruct (unpack3 (split line)) as [e | symbol_name] eqn:Hu.
    + apply unpack3_error in Hu. now subst.
    + apply IH.
Qed.

(** C5: when every line of the tool's output has exactly three
    whitespace-separated fields, [get_symbols] returns the third field of
    each line, in the order of the lines; when some line has another number
    of fields, [get_symbols] raises, nothing catches the exception, and the
    run ends with a non-zero status before it has read the policy file or
    printed anything. *)
Theorem get_symbols_third_field_or_failure (w : World) (args : Args) (lines : list string) :
  nm_output w (nm args) (lib args) = inr lines ->
  (Forall (fun line => length (split line) = 3) lines ->
   get_symbols w (nm args) (lib args)
   = inr (map (fun line => nth 2 (split line) "") lines))
  /\ (Exists (fun line => length (split line) <> 3) lines ->
      get_symbols w (nm args) (lib args) = inl ValueError
      /\ run w args = Uncaught ValueError empty_store
      /\ printed (run w args) = []
      /\ exit_status (run w args) <> 0%Z).
Proof.
  intros Hout. unfold get_symbols at 1 2. rewrite Hout. split.
  - intros Hall. now rewrite get_symbols_loop_ok.
  - intros Hex.
    assert (Hg : get_symbols w (nm args) (lib args) = inl ValueError).
    { unfold get_symbols. rewrite Hout. now apply get_symbols_loop_fails. }
    split; [now apply get_symbols_loop_fails |].
    rewrite (run_tool_failure w args ValueError Hg). simpl.
    repeat split. discriminate.
Qed.

Lemma get_symbols_third_field_or_failure_witness :
  get_symbols (world_of (inr ["0000000000001040 T foo_init"; "0000000000004010 B _end"])
                        (inr []))
              "nm" "libfoo.so"
  = inr ["foo_init"; "_end"]
  /\ run (world_of (inr ["0000000000001040 T foo_init"; "T foo_debug"])
                   (inr ["(maybe) d"]))
         sample_args
     = Uncaught ValueError empty_store.
Proof.
  split.
  - apply (get_symbols_third_field_or_failure
             (world_of (inr ["0000000000001040 T foo_init"; "0000000000004010 B _end"])
                       (inr []))
             sample_args
             ["0000000000001040 T foo_init"; "0000000000004010 B _end"]).
    + reflexivity.
    + repeat constructor.
  - apply (get_symbols_third_field_or_failure
             (world_of (inr ["0000000000001040 T foo_init"; "T foo_debug"])
                       (inr ["(maybe) d"]))
             sample_args
             ["0000000000001040 T foo_init"; "T foo_debug"]).
    + reflexivity.
    + apply Exists_cons_tl, Exists_cons_hd. simpl. lia.
Defined.

(** C10: the platform list is the nine names below, and whatever the
    policy and the exported sequence, the audit never puts one of them in
    [unknown_symbols]; no run, however it ends, holds one of them there. *)
Theorem platform_symbols_never_unknown (s : Store) (w : World) (args : Args) (x : string) :
  In x PLATFORM_SYMBOLS ->
  PLATFORM_SYMBOLS
  = ["__bss_end__"; "__bss_start__"; "__bss_start"; "__end__"; "_bss_end__";
     "_edata"; "_end"; "_fini"; "_init"]
  /\ length PLATFORM_SYMBOLS = 9
  /\ (exists s', audit s = Normal tt s' /\ ~ In x (unknown_symbols s'))
  /\ ~ In x (unknown_symbols (final_store (run w args))).
Proof.
  intros Hx. split; [reflexivity | split; [reflexivity |]].
  assert (Hnot : forall M O E, ~ In x (expected_unknown M O E)).
  { intros M O E. unfold expected_unknown.
    rewrite filter_In, negb_true_iff, allowed_spec. tauto. }
  split.
  - eexists. split; [apply audit_spec |].
    unfold with_missing_symbols, with_unknown_symbols. cbn [unknown_symbols].
    apply Hnot.
  - destruct (run_unknown_symbols w args) as [-> | [M [O [E ->]]]]; [tauto | apply Hnot].
Qed.

Lemma platform_symbols_never_unknown_witness :
  (exists s',
     audit (with_lib_symbols ["foo_init"; "_end"; "_end"] empty_store) = Normal tt s'
     /\ ~ In "_end" (unknown_symbols s'))
  /\ ~ In "_end" (unknown_symbols (final_store (run scenario_world sample_args))).
Proof.
  apply (platform_symbols_never_unknown
           (with_lib_symbols ["foo_init"; "_end"; "_end"] empty_store)
           scenario_world sample_args "_end").
  simpl. tauto.
Defined.

(** ** Policies that say the same *)

Lemma py_in_same_elements (l l' : list string) (x : string) :
  (forall y, In y l' <-> In y l) -> py_in x l' = py_in x l.
Proof.
  intros H. destruct (py_in x l) eqn:Hl.
  - apply py_in_In. apply H. now apply py_in_In.
  - apply py_in_not_In. rewrite H. now apply py_in_not_In.
Qed.

Lemma nonempty_same_elements (l l' : list string) :
  (forall y, In y l' <-> In y l) -> nonempty l' = nonempty l.
Proof.
  intros H. destruct l as [|a l], l' as [|a' l']; simpl; try reflexivity.
  - exfalso. apply (H a'). now left.
  - exfalso. apply (H a). now left.
Qed.

Lemma expected_unknown_same_elements (M M' O O' E : list string) :
  (forall y, In y M' <-> In y M) -> (forall y, In y O' <-> In y O) ->
  expected_unknown M' O' E = expected_unknown M O E.
Proof.
  intros HM HO. unfold expected_unknown. apply filter_ext. intros x.
  unfold allowed. now rewrite (py_in_same_elements M M' x HM), (py_in_same_elements O O' x HO).
Qed.

Lemma expected_missing_In (M E : list string) (x : string) :
  In x (expected_missing M E) <-> In x M /\ ~ In x E.
Proof.
  unfold expected_missing. rewrite filter_In, negb_true_iff, py_in_not_In. tauto.
Qed.

Lemma expected_missing_count (M E : list string) (x : string) :
  count_occ string_dec (expected_missing M E) x
  = if py_in x E then 0 else count_occ string_dec M x.
Proof.
  unfold expected_missing. destruct (py_in x E) eqn:Hx.
  - apply count_occ_filter_dropped. now rewrite Hx.
  - apply count_occ_filter_kept. now rewrite Hx.
Qed.

(** Mandatory symbols that are exported add nothing to the missing ones. *)
Lemma expected_missing_exported (A X B E : list string) :
  (forall x, In x X -> In x E) ->
  expected_missing (A ++ X ++ B) E = expected_missing (A ++ B) E.
Proof.
  intros HX. unfold expected_missing. rewrite !filter_app.
  replace (filter (fun x => negb (py_in x E)) X) with (@nil string); [reflexivity |].
  symmetry. induction X as [|x X IH]; simpl; [reflexivity |].
  assert (Hx : py_in x E = true) by (apply py_in_In, HX; now left).
  rewrite Hx. simpl. apply IH. intros y Hy. apply HX. now right.
Qed.

Lemma declared_mandatory_app (l1 l2 : list string) :
  declared_mandatory (l1 ++ l2) = declared_mandatory l1 ++ declared_mandatory l2.
Proof. apply flat_map_app. Qed.

Lemma declared_optional_app (l1 l2 : list string) :
  declared_optional (l1 ++ l2) = declared_optional l1 ++ declared_optional l2.
Proof. apply flat_map_app. Qed.

(** Whether a line is rejected is a matter of its tokens only. *)
Lemma rejected_same_fields (d d0 : string) :
  fields_of d = fields_of d0 -> rejected d0 = false -> rejected d = false.
Proof.
  intros Hf H0. destruct (rejected d) eqn:Hd; [| reflexivity].
  assert (Hr : rejected d0 = true); [| congruence].
  apply rejected_spec in Hd. destruct Hd as [_ Hc]. rewrite Hf in Hc.
  apply rejected_spec. split; [| assumption].
  intros He. unfold fields_of in Hc. rewrite He, split_empty in Hc. simpl in Hc.
  destruct Hc as [Hc | [q [sym [Hc _]]]]; [lia | discriminate].
Qed.

(** A line with the tokens of a line of [L] declares nothing [L] does not. *)
Lemma declared_mandatory_repeated (L : list string) (d d0 : string) :
  In d0 L -> fields_of d = fields_of d0 ->
  forall x, In x (declared_mandatory [d]) -> In x (declared_mandatory L).
Proof.
  intros Hin Hf x Hx. unfold declared_mandatory in *. simpl in Hx. rewrite app_nil_r in Hx.
  apply in_flat_map. exists d0. split; [assumption |]. now rewrite <- Hf.
Qed.

Lemma declared_optional_repeated (L : list string) (d d0 : string) :
  In d0 L -> fields_of d = fields_of d0 ->
  forall x, In x (declared_optional [d]) -> In x (declared_optional L).
Proof.
  intros Hin Hf x Hx. unfold declared_optional in *. simpl in Hx. rewrite app_nil_r in Hx.
  apply in_flat_map. exists d0. split; [assumption |]. now rewrite <- Hf.
Qed.

Lemma insert_same_elements (A X B : list string) :
  (forall x, In x X -> In x (A ++ B)) ->
  forall y, In y (A ++ X ++ B) <-> In y (A ++ B).
Proof.
  intros HX y. rewrite !in_app_iff. split.
  - intros [H | [H | H]]; [now left | apply in_app_iff; now apply HX | now right].
  - intros [H | H]; [now left | now right; right].
Qed.

(** C6 (amended): the policy is kept in lists, so a repeated entry is
    kept too.  Adding to an accepted policy file a line with the tokens of a
    line already there leaves the unknown symbols, the set of symbols
    reported missing and the exit status as they were; the whole output is
    unchanged unless the repeated line declares a mandatory symbol that the
    library does not export, and a missing symbol is reported once for each
    line that declares it mandatory. *)
Theorem repeated_policy_line (w w' : World) (args : Args)
        (E L1 L2 : list string) (d d0 : string) :
  get_symbols w (nm args) (lib args) = inr E ->
  get_symbols w' (nm args) (lib args) = inr E ->
  file_lines w (symbols_file args) = inr (L1 ++ L2) ->
  file_lines w' (symbols_file args) = inr (L1 ++ d :: L2) ->
  Forall (fun raw => rejected raw = false) (L1 ++ L2) ->
  In d0 (L1 ++ L2) -> fields_of d = fields_of d0 ->
  let r := run w args in
  let r' := run w' args in
  unknown_symbols (final_store r') = unknown_symbols (final_store r)
  /\ (forall x, In x (missing_symbols (final_store r'))
                <-> In x (missing_symbols (final_store r)))
  /\ exit_status r' = exit_status r
  /\ ((forall sym, fields_of d = [sym] -> In sym E) -> printed r' = printed r)
  /\ (forall x, count_occ string_dec (missing_symbols (final_store r')) x
                = if py_in x E then 0
                  else count_occ string_dec (declared_mandatory (L1 ++ d :: L2)) x).
Proof.
  intros HE HE' HL HL' Hacc Hin Hf r r'. subst r r'.
  assert (Hacc' : Forall (fun raw => rejected raw = false) (L1 ++ d :: L2)).
  { apply Forall_app in Hacc. destruct Hacc as [H1 H2].
    apply Forall_app. split; [assumption |]. constructor; [| assumption].
    apply (rejected_same_fields d d0 Hf).
    rewrite Forall_forall in H1, H2. apply in_app_iff in Hin.
    destruct Hin as [Hin | Hin]; [now apply H1 | now apply H2]. }
  rewrite (run_completed w args E _ HE HL Hacc).
  rewrite (run_completed w' args E _ HE' HL' Hacc').
  cbn [final_store unknown_symbols missing_symbols exit_status printed stdout].
  change (d :: L2) with ([d] ++ L2).
  rewrite !declared_mandatory_app, !declared_optional_app.
  set (M1 := declared_mandatory L1). set (M2 := declared_mandatory L2).
  set (O1 := declared_optional L1). set (O2 := declared_optional L2).
  assert (HM : forall y, In y (M1 ++ declared_mandatory [d] ++ M2) <-> In y (M1 ++ M2)).
  { apply insert_same_elements. intros x Hx. subst M1 M2.
    rewrite <- declared_mandatory_app. now apply (declared_mandatory_repeated _ d d0). }
  assert (HO : forall y, In y (O1 ++ declared_optional [d] ++ O2) <-> In y (O1 ++ O2)).
  { apply insert_same_elements. intros x Hx. subst O1 O2.
    rewrite <- declared_optional_app. now apply (declared_optional_repeated _ d d0). }
  assert (HU : expected_unknown (M1 ++ declared_mandatory [d] ++ M2)
                 (O1 ++ declared_optional [d] ++ O2) E
               = expected_unknown (M1 ++ M2) (O1 ++ O2) E)
    by now apply expected_unknown_same_elements.
  assert (HMi : forall x, In x (expected_missing (M1 ++ declared_mandatory [d] ++ M2) E)
                          <-> In x (expected_missing (M1 ++ M2) E)).
  { intros x. rewrite !expected_missing_In, HM. tauto. }
  split; [exact HU |]. split; [exact HMi |]. split; [| split].
  - unfold expected_status. now rewrite HU, (nonempty_same_elements _ _ HMi).
  - intros Hexp. rewrite HU. unfold expected_report. do 2 f_equal.
    apply expected_missing_exported. intros x Hx.
    unfold declared_mandatory in Hx. simpl in Hx. rewrite app_nil_r in Hx.
    destruct (fields_of d) as [|sym [|f1 rest]] eqn:Hd; simpl in Hx; try tauto.
    destruct Hx as [<- | []]. now apply Hexp.
  - intros x. apply expected_missing_count.
Qed.

Lemma repeated_policy_line_witness :
  let r := run (world_of (inr ["0 T foo_extra"]) (inr ["foo_init"; "(optional) foo_debug"]))
               sample_args in
  let r' := run (world_of (inr ["0 T foo_extra"])
                          (inr ["foo_init"; "foo_init  # again"; "(optional) foo_debug"]))
                sample_args in
  unknown_symbols (final_store r') = unknown_symbols (final_store r)
  /\ exit_status r' = exit_status r
  /\ count_occ string_dec (missing_symbols (final_store r')) "foo_init" = 2.
Proof.
  destruct (repeated_policy_line
              (world_of (inr ["0 T foo_extra"]) (inr ["foo_init"; "(optional) foo_debug"]))
              (world_of (inr ["0 T foo_extra"])
                        (inr ["foo_init"; "foo_init  # again"; "(optional) foo_debug"]))
              sample_args ["foo_extra"] ["foo_init"] ["(optional) foo_debug"]
              "foo_init  # again" "foo_init"
              eq_refl eq_refl eq_refl eq_refl
              ltac:(repeat constructor) ltac:(simpl; tauto) eq_refl)
    as (HU & _ & Hs & _ & Hc).
  split; [exact HU | split; [exact Hs |]].
  rewrite Hc. reflexivity.
Defined.

(** C6, as first stated, fails: a mandatory symbol the library lacks is
    reported once for each policy line that declares it, so a repeated line
    changes the report. *)
Lemma repeated_mandatory_line_changes_report :
  let one := run (world_of (inr []) (inr ["foo_init"])) sample_args in
  let two := run (world_of (inr []) (inr ["foo_init"; "foo_init"])) sample_args in
  printed one = ["libfoo.so: missing symbol: foo_init"]
  /\ printed two = ["libfoo.so: missing symbol: foo_init";
                    "libfoo.so: missing symbol: foo_init"]
  /\ printed two <> printed one
  /\ count_occ string_dec (missing_symbols (final_store two)) "foo_init" = 2.
Proof.
  repeat split. discriminate.
Qed.

(** ** The order of the steps *)

(** C7 (amended): the symbols of the library are listed before the policy
    file is opened.  When listing them raises, the run ends on that uncaught
    exception with a non-zero status and an empty output, whatever the policy
    file holds; a rejected policy line is reported, with exit status 1, only
    when the symbols were listed. *)
Theorem symbols_listed_before_policy_read (w : World) (args : Args) :
  (forall e, get_symbols w (nm args) (lib args) = inl e ->
     run w args = Uncaught e empty_store
     /\ printed (run w args) = []
     /\ exit_status (run w args) = 1%Z
     /\ forall policy,
          run (mkWorld (nm_output w) (fun _ => policy)) args = run w args)
  /\ (forall E pre bad post,
        get_symbols w (nm args) (lib args) = inr E ->
        file_lines w (symbols_file args) = inr (pre ++ bad :: post) ->
        Forall (fun raw => rejected raw = false) pre -> rejected bad = true ->
        printed (run w args) = [error_message args bad]
        /\ exit_status (run w args) = 1%Z).
Proof.
  split.
  - intros e He. rewrite (run_tool_failure w args e He).
    repeat split. intros policy. now apply run_tool_failure.
  - intros E pre bad post HE HL Hpre Hbad.
    rewrite (run_rejected w args E pre post bad HE HL Hpre Hbad). now split.
Qed.

Lemma symbols_listed_before_policy_read_witness :
  run (world_of (inl CalledProcessError) (inr ["(maybe) d"])) sample_args
  = Uncaught CalledProcessError empty_store
  /\ printed (run (world_of (inr ["0 T foo_init"]) (inr ["(maybe) d"])) sample_args)
     = ["syms.txt: invalid qualifier: (maybe)"].
Proof.
  split.
  - apply (symbols_listed_before_policy_read
             (world_of (inl CalledProcessError) (inr ["(maybe) d"])) sample_args).
    reflexivity.
  - destruct (symbols_listed_before_policy_read
                (world_of (inr ["0 T foo_init"]) (inr ["(maybe) d"])) sample_args)
      as [_ Hread].
    apply (Hread ["foo_init"] [] "(maybe) d" []).
    + reflexivity.
    + reflexivity.
    + constructor.
    + reflexivity.
Defined.

(** C7, as first stated, fails: with the same malformed policy file, the
    message about the policy is printed when the tool answers and is not when
    the tool fails, be it by its exit status or by a line of two fields. *)
Lemma format_error_depends_on_tool :
  let policy := inr ["(maybe) d"] in
  printed (run (world_of (inr ["0 T foo_init"]) policy) sample_args)
  = ["syms.txt: invalid qualifier: (maybe)"]
  /\ run (world_of (inl CalledProcessError) policy) sample_args
     = Uncaught CalledProcessError empty_store
  /\ run (world_of (inr ["T foo_init"]) policy) sample_args
     = Uncaught ValueError empty_store
  /\ ~ (forall tool,
          printed (run (world_of tool policy) sample_args)
          = ["syms.txt: invalid qualifier: (maybe)"]).
Proof.
  repeat split.
  intros H. specialize (H (inl CalledProcessError)). discriminate H.
Qed.

(** ** Determinism and purity *)

Lemma run_same_inputs (w1 w2 : World) (args : Args) :
  nm_output w1 (nm args) (lib args) = nm_output w2 (nm args) (lib args) ->
  file_lines w1 (symbols_file args) = file_lines w2 (symbols_file args) ->
  run w1 args = run w2 args.
Proof.
  intros Hnm Hfile. unfold run, main, get_symbols. now rewrite Hnm, Hfile.
Qed.

Lemma audit_report_spec (args : Args) (s : Store) :
  let M := mandatory_symbols s in
  let O := optional_symbols s in
  let E := lib_symbols s in
  let U := expected_unknown M O E in
  let Mi := expected_missing M E in
  (audit ;; report args) s
  = SystemExit (expected_status U Mi)
      (mkStore E M O U Mi (stdout s ++ expected_report args U Mi)).
Proof.
  simpl. unfold bind. rewrite audit_spec, report_spec. reflexivity.
Qed.

(** C8: the audit and the report change neither the exported sequence nor
    the two lists of the policy; what they print and the status they exit
    with are the same for any two stores that hold the same three lists,
    whatever a former audit left in the others, so that a second audit
    finds what the first found; and two runs that are given the same tool
    output and the same policy file end in the same result, line for line. *)
Theorem audit_is_deterministic_and_pure (args : Args) (s1 s2 : Store) (w1 w2 : World) :
  lib_symbols s1 = lib_symbols s2 ->
  mandatory_symbols s1 = mandatory_symbols s2 ->
  optional_symbols s1 = optional_symbols s2 ->
  nm_output w1 (nm args) (lib args) = nm_output w2 (nm args) (lib args) ->
  file_lines w1 (symbols_file args) = file_lines w2 (symbols_file args) ->
  (let s' := final_store ((audit ;; report args) s1) in
   lib_symbols s' = lib_symbols s1
   /\ mandatory_symbols s' = mandatory_symbols s1
   /\ optional_symbols s' = optional_symbols s1)
  /\ (exists code lines s1' s2',
        (audit ;; report args) s1 = SystemExit code s1'
        /\ (audit ;; report args) s2 = SystemExit code s2'
        /\ stdout s1' = stdout s1 ++ lines
        /\ stdout s2' = stdout s2 ++ lines
        /\ unknown_symbols s1' = unknown_symbols s2'
        /\ missing_symbols s1' = missing_symbols s2')
  /\ (exists s', audit s1 = Normal tt s' /\ audit s' = Normal tt s')
  /\ run w1 args = run w2 args
  /\ printed (run w1 args) = printed (run w2 args)
  /\ exit_status (run w1 args) = exit_status (run w2 args).
Proof.
  intros HE HM HO Hnm Hfile.
  split; [| split; [| split]].
  - rewrite audit_report_spec. simpl. auto.
  - do 4 eexists. rewrite !audit_report_spec. rewrite <- HE, <- HM, <- HO.
    repeat split.
  - eexists. split; [apply audit_spec |]. rewrite audit_spec.
    destruct s1. unfold_store. reflexivity.
  - now rewrite (run_same_inputs w1 w2 args Hnm Hfile).
Qed.

Lemma audit_is_deterministic_and_pure_witness :
  let s := with_mandatory_symbols ["foo_init"] (with_lib_symbols ["foo_debug"] empty_store) in
  exists s', audit s = Normal tt s' /\ audit s' = Normal tt s'.
Proof.
  apply (audit_is_deterministic_and_pure sample_args
           (with_mandatory_symbols ["foo_init"] (with_lib_symbols ["foo_debug"] empty_store))
           (with_unknown_symbols ["stale"]
              (with_mandatory_symbols ["foo_init"]
                 (with_lib_symbols ["foo_debug"] empty_store)))
           scenario_world scenario_world);
    reflexivity.
Defined.

(** ** The scenarios of the specification *)

Example policy_round_trip :
  for_each ["a"; "(optional) b"; "# comment"; ""] (policy_line sample_args) empty_store
  = Normal tt (with_optional_symbols ["b"] (with_mandatory_symbols ["a"] empty_store)).
Proof. reflexivity. Qed.

Example scenario_unknown_export :
  let r := run (world_of (inr ["0 T foo_init"; "1 T foo_debug"; "2 T foo_extra"])
                         (inr ["foo_init"; "(optional) foo_debug"]))
               sample_args in
  unknown_symbols (final_store r) = ["foo_extra"]
  /\ missing_symbols (final_store r) = []
  /\ exit_status r = 1%Z.
Proof. repeat split. Qed.

Example scenario_compliant :
  let r := run (world_of (inr ["0 T foo_init"; "1 B _end"]) (inr ["foo_init"]))
               sample_args in
  printed r = [] /\ exit_status r = 0%Z.
Proof. repeat split. Qed.

Example split_three_fields :
  split "0000000000001040 T foo_init" = ["0000000000001040"; "T"; "foo_init"].
Proof. reflexivity. Qed.

Example strip_trailing_comment :
  strip (before_hash "  symbol_name_three   # trailing comment") = "symbol_name_three".
Proof. reflexivity. Qed.

(** ** Comments, blanks and layout of the policy file *)

Lemma before_hash_comment (a b : string) :
  before_hash (a ++ String "#" b) = before_hash a.
Proof.
  induction a as [|c a IH]; simpl.
  - reflexivity.
  - destruct (Ascii.eqb c "#"); [reflexivity | now rewrite IH].
Qed.

(** X1: whatever follows the first ['#'] of a policy line has no effect: the
    line is treated as the text before it, for every store. *)
Theorem comment_text_is_ignored (args : Args) (a b : string) (s : Store) :
  policy_line args (a ++ String "#" b) s = policy_line args a s
  /\ rejected (a ++ String "#" b) = rejected a
  /\ error_message args (a ++ String "#" b) = error_message args a.
Proof.
  unfold policy_line, rejected, error_message, fields_of, stripped.
  now rewrite before_hash_comment.
Qed.

Lemma split_from_lstrip (s : string) : split_from "" (lstrip s) = split_from "" s.
Proof.
  induction s as [|c r IH]; simpl; [reflexivity |].
  destruct (isspace c) eqn:Hc; [exact IH |].
  simpl. now rewrite Hc.
Qed.

Lemma split_from_rstrip (s tok : string) : split_from tok (rstrip s) = split_from tok s.
Proof.
  revert tok. induction s as [|c r IH]; intros tok; [reflexivity |].
  simpl rstrip. destruct (rstrip r) as [|c' r'] eqn:Hr.
  - destruct (isspace c) eqn:Hc; simpl; rewrite Hc.
    + rewrite <- IH. simpl. now rewrite app_nil_r.
    + rewrite <- IH. reflexivity.
  - simpl. destruct (isspace c); now rewrite <- IH.
Qed.

Lemma split_strip (s : string) : split (strip s) = split s.
Proof.
  unfold split, strip. now rewrite split_from_rstrip, split_from_lstrip.
Qed.

Lemma strip_blank_iff (s : string) : strip s = "" <-> split s = [].
Proof.
  split.
  - intros H. rewrite <- split_strip, H. reflexivity.
  - intros H. destruct (strip s) as [|c r] eqn:Hs; [reflexivity |].
    exfalso. apply (split_strip_not_nil s); [rewrite Hs; discriminate |].
    now rewrite split_strip.
Qed.

Lemma fields_of_untrimmed (raw : string) : fields_of raw = split (before_hash raw).
Proof. unfold fields_of, stripped. apply split_strip. Qed.

Lemma rejected_by_fields (raw : string) :
  rejected raw
  = (Nat.leb 3 (length (fields_of raw))
     || (Nat.eqb (length (fields_of raw)) 2
         && negb (String.eqb (nth 0 (fields_of raw) "") qualifier_optional))).
Proof.
  unfold rejected. destruct (truthy (stripped raw)) eqn:Hb; [reflexivity |].
  assert (He : stripped raw = "") by (destruct (stripped raw); [reflexivity | discriminate]).
  unfold fields_of. rewrite He, split_empty. reflexivity.
Qed.

(** X2: trimming a policy line does not change its tokens, so the layout of
    a line (indentation, the width of the gaps, what follows ['#']) decides
    nothing: two lines with the same tokens before the comment are both
    rejected or both accepted, and when accepted they change the store in
    the same way. *)
Theorem line_layout_is_ignored (args : Args) (raw raw' : string) (s : Store) :
  split (before_hash raw) = split (before_hash raw') ->
  split (strip (before_hash raw)) = split (before_hash raw)
  /\ rejected raw = rejected raw'
  /\ (rejected raw = false -> policy_line args raw s = policy_line args raw' s).
Proof.
  intros Hsame. split; [apply split_strip |].
  assert (Hf : fields_of raw = fields_of raw') by now rewrite !fields_of_untrimmed.
  assert (Hr : rejected raw = rejected raw') by now rewrite !rejected_by_fields, Hf.
  split; [exact Hr |]. intros Hacc.
  rewrite (policy_line_accepted args raw s Hacc).
  rewrite (policy_line_accepted args raw' s) by congruence.
  unfold declared_mandatory, declared_optional. simpl. now rewrite Hf.
Qed.

Lemma line_layout_is_ignored_witness :
  policy_line sample_args "	 (optional)   foo_debug  # may be absent" empty_store
  = policy_line sample_args "(optional) foo_debug" empty_store.
Proof.
  apply (line_layout_is_ignored sample_args
           "	 (optional)   foo_debug  # may be absent" "(optional) foo_debug" empty_store).
  - reflexivity.
  - reflexivity.
Defined.

Lemma run_same_loading (w w' : World) (args : Args) (L L' : list string) :
  nm_output w' (nm args) (lib args) = nm_output w (nm args) (lib args) ->
  file_lines w (symbols_file args) = inr L ->
  file_lines w' (symbols_file args) = inr L' ->
  (forall s, for_each L' (policy_line args) s = for_each L (policy_line args) s) ->
  run w' args = run w args.
Proof.
  intros Hnm HL HL' Hload. unfold run, main, get_symbols. rewrite Hnm, HL, HL'.
  unfold bind, lift, modify.
  destruct (nm_output w (nm args) (lib args)) as [e | lines]; [reflexivity |].
  destruct (get_symbols_loop lines []) as [e | E]; [reflexivity |].
  now rewrite Hload.
Qed.

(** X3: a blank line or a line that holds only a comment can be put anywhere
    in the policy file without changing the run: same output, same exit
    status, same lists, whether or not the other lines are accepted. *)
Theorem blank_lines_are_ignored (w w' : World) (args : Args)
        (L1 L2 : list string) (blank : string) :
  split (before_hash blank) = [] ->
  nm_output w' (nm args) (lib args) = nm_output w (nm args) (lib args) ->
  file_lines w (symbols_file args) = inr (L1 ++ L2) ->
  file_lines w' (symbols_file args) = inr (L1 ++ blank :: L2) ->
  run w' args = run w args.
Proof.
  intros Hblank Hnm HL HL'. apply (run_same_loading w w' args _ _ Hnm HL HL').
  intros s. rewrite !for_each_app. unfold bind.
  destruct (for_each L1 (policy_line args) s) as [[] s1 | code s1 | e s1]; try reflexivity.
  simpl. unfold bind. rewrite policy_line_blank; [reflexivity |].
  unfold stripped. now apply strip_blank_iff.
Qed.

Lemma blank_lines_are_ignored_witness :
  run (world_of (inr ["0 T foo_debug"]) (inr ["foo_init"; "   # only a comment"; "(maybe) d"]))
      sample_args
  = run (world_of (inr ["0 T foo_debug"]) (inr ["foo_init"; "(maybe) d"])) sample_args.
Proof.
  apply (blank_lines_are_ignored
           (world_of (inr ["0 T foo_debug"]) (inr ["foo_init"; "(maybe) d"]))
           (world_of (inr ["0 T foo_debug"])
                     (inr ["foo_init"; "   # only a comment"; "(maybe) d"]))
           sample_args ["foo_init"] ["(maybe) d"] "   # only a comment");
    reflexivity.
Defined.

(** ** How a run can end *)

(** The four ways a run ends. *)
Lemma run_cases (w : World) (args : Args) :
  (exists e, get_symbols w (nm args) (lib args) = inl e
             /\ run w args = Uncaught e empty_store)
  \/ (exists E e, get_symbols w (nm args) (lib args) = inr E
                  /\ file_lines w (symbols_file args) = inl e
                  /\ run w args = Uncaught e (with_lib_symbols E empty_store))
  \/ (exists E pre bad post,
        get_symbols w (nm args) (lib args) = inr E
        /\ file_lines w (symbols_file args) = inr (pre ++ bad :: post)
        /\ Forall (fun raw => rejected raw = false) pre /\ rejected bad = true
        /\ run w args
           = SystemExit 1
               (mkStore E (declared_mandatory pre) (declared_optional pre) [] []
                        [error_message args bad]))
  \/ (exists E L,
        get_symbols w (nm args) (lib args) = inr E
        /\ file_lines w (symbols_file args) = inr L
        /\ Forall (fun raw => rejected raw = false) L
        /\ run w args
           = SystemExit
               (expected_status
                  (expected_unknown (declared_mandatory L) (declared_optional L) E)
                  (expected_missing (declared_mandatory L) E))
               (mkStore E (declared_mandatory L) (declared_optional L)
                  (expected_unknown (declared_mandatory L) (declared_optional L) E)
                  (expected_missing (declared_mandatory L) E)
                  (expected_report args
                     (expected_unknown (declared_mandatory L) (declared_optional L) E)
                     (expected_missing (declared_mandatory L) E)))).
Proof.
  destruct (get_symbols w (nm args) (lib args)) as [e | E] eqn:HE.
  - left. exists e. split; [reflexivity | now apply run_tool_failure].
  - right. destruct (file_lines w (symbols_file args)) as [e | L] eqn:HL.
    + left. exists E, e. repeat split. now apply run_file_failure.
    + right. destruct (first_rejected L) as [Hall | [pre [bad [post [-> [Hpre Hbad]]]]]].
      * right. exists E, L. repeat split; [assumption |].
        now apply run_completed.
      * left. exists E, pre, bad, post. repeat split; try assumption.
        now apply (run_rejected w args E pre post bad).
Qed.

Lemma filter_nil_iff (f : string -> bool) (l : list string) :
  filter f l = [] <-> forall x, In x l -> f x = false.
Proof.
  induction l as [|y l IH]; simpl.
  - split; [intros _ x [] | reflexivity].
  - destruct (f y) eqn:Hy.
    + split; [discriminate |]. intros H. rewrite (H y) in Hy by now left. discriminate.
    + rewrite IH. split.
      * intros H x [<- | Hx]; [assumption | now apply H].
      * intros H x Hx. apply H. now right.
Qed.

Lemma allowed_true (M O : list string) (x : string) :
  allowed M O x = true <-> In x M \/ In x O \/ In x PLATFORM_SYMBOLS.
Proof.
  unfold allowed. rewrite !orb_true_iff, !py_in_In. tauto.
Qed.

Lemma expected_unknown_nil (M O E : list string) :
  expected_unknown M O E = []
  <-> forall x, In x E -> In x M \/ In x O \/ In x PLATFORM_SYMBOLS.
Proof.
  unfold expected_unknown. rewrite filter_nil_iff.
  split; intros H x Hx; specialize (H x Hx).
  - apply allowed_true. now apply negb_false_iff.
  - apply negb_false_iff. now apply allowed_true.
Qed.

Lemma expected_missing_nil (M E : list string) :
  expected_missing M E = [] <-> forall m, In m M -> In m E.
Proof.
  unfold expected_missing. rewrite filter_nil_iff.
  split; intros H x Hx; specialize (H x Hx).
  - apply py_in_In. now apply negb_false_iff.
  - apply negb_false_iff. now apply py_in_In.
Qed.

(** X5: once the command line has been parsed into the three options, the
    exit status of the run (line 50 to the end of [main]) is 0 exactly when
    the symbols were listed, the policy file was read with every line
    accepted, every exported symbol is mandatory, optional or a platform
    symbol, and every mandatory symbol is exported; the run has then printed
    nothing. *)
Theorem exit_status_0_iff_compliant (w : World) (args : Args) :
  (exit_status (run w args) = 0%Z
   <-> exists E L,
         get_symbols w (nm args) (lib args) = inr E
         /\ file_lines w (symbols_file args) = inr L
         /\ Forall (fun raw => rejected raw = false) L
         /\ (forall x, In x E ->
               In x (declared_mandatory L) \/ In x (declared_optional L)
               \/ In x PLATFORM_SYMBOLS)
         /\ (forall m, In m (declared_mandatory L) -> In m E))
  /\ (exit_status (run w args) = 0%Z -> printed (run w args) = []).
Proof.
  assert (Hdone : forall E L,
            get_symbols w (nm args) (lib args) = inr E ->
            file_lines w (symbols_file args) = inr L ->
            Forall (fun raw => rejected raw = false) L ->
            (exit_status (run w args) = 0%Z
             <-> expected_unknown (declared_mandatory L) (declared_optional L) E = []
                 /\ expected_missing (declared_mandatory L) E = [])
            /\ (exit_status (run w args) = 0%Z -> printed (run w args) = [])).
  { intros E L HE HL Hall. rewrite (run_completed w args E L HE HL Hall).
    cbn [exit_status printed final_store stdout].
    split; [apply expected_status_zero |].
    intros H. apply expected_status_zero in H. destruct H as [-> ->]. reflexivity. }
  destruct (run_cases w args)
    as [[e [HE Hr]] | [[E [e [HE [HL Hr]]]] | [[E [pre [bad [post [HE [HL [Hpre [Hbad Hr]]]]]]]]
       | [E [L [HE [HL [Hall Hr]]]]]]]].
  - split; [| rewrite Hr; discriminate]. split.
    + rewrite Hr. discriminate.
    + intros [E [L [HE' _]]]. congruence.
  - split; [| rewrite Hr; discriminate]. split.
    + rewrite Hr. discriminate.
    + intros [E' [L [_ [HL' _]]]]. congruence.
  - split; [| rewrite Hr; discriminate]. split.
    + rewrite Hr. discriminate.
    + intros [E' [L [_ [HL' [Hall _]]]]]. rewrite HL in HL'. injection HL' as <-.
      apply Forall_app in Hall. destruct Hall as [_ Hall]. inversion Hall. congruence.
  - destruct (Hdone E L HE HL Hall) as [Hiff Hprinted]. split; [| exact Hprinted].
    rewrite Hiff, expected_unknown_nil, expected_missing_nil. split.
    + intros [HU HM]. exists E, L. auto.
    + intros [E' [L' [HE' [HL' [_ [HU HM]]]]]].
      rewrite HE in HE'. injection HE' as <-. rewrite HL in HL'. injection HL' as <-. auto.
Qed.

(** ** The two lists of the report, and how they move with the inputs *)

Lemma filter_stricter (f g : string -> bool) (l : list string) :
  (forall x, g x = true -> f x = true) -> filter g l = filter g (filter f l).
Proof.
  intros Hgf. induction l as [|x l IH]; simpl; [reflexivity |].
  destruct (g x) eqn:Hg.
  - rewrite (Hgf x Hg). simpl. rewrite Hg. now f_equal.
  - destruct (f x); simpl; [rewrite Hg |]; exact IH.
Qed.

Lemma py_in_incl (l l' : list string) (x : string) :
  incl l l' -> py_in x l = true -> py_in x l' = true.
Proof. intros Hincl H. apply py_in_In, Hincl. now apply py_in_In. Qed.

(** X6: the audit never names a symbol in both lists: an unknown symbol is
    exported, a missing one is not.  The unknown symbols are a sub-list of
    the exported ones and the missing symbols a sub-list of the mandatory
    ones. *)
Theorem unknown_and_missing_are_disjoint (s : Store) :
  exists s',
    audit s = Normal tt s'
    /\ (forall x, In x (unknown_symbols s') -> ~ In x (missing_symbols s'))
    /\ incl (unknown_symbols s') (lib_symbols s)
    /\ incl (missing_symbols s') (mandatory_symbols s).
Proof.
  eexists. split; [apply audit_spec |].
  unfold with_missing_symbols, with_unknown_symbols.
  cbn [unknown_symbols missing_symbols].
  split; [| split].
  - intros x HU HM. unfold expected_unknown in HU. apply filter_In in HU.
    apply expected_missing_In in HM. tauto.
  - apply incl_filter.
  - apply incl_filter.
Qed.

(** X7: declaring more never flags more.  With the same exported symbols, a
    policy that holds every mandatory and every optional symbol of another
    leaves, of the other's unknown symbols, those it still does not allow,
    in the same order; and with the same mandatory symbols, a library that
    exports all that another does misses, of what the other misses, those it
    still does not export. *)
Theorem larger_inputs_flag_less (s s' : Store) :
  (lib_symbols s' = lib_symbols s ->
   incl (mandatory_symbols s) (mandatory_symbols s') ->
   incl (optional_symbols s) (optional_symbols s') ->
   exists t t',
     audit s = Normal tt t /\ audit s' = Normal tt t'
     /\ unknown_symbols t'
        = filter (fun x => negb (py_in x (mandatory_symbols s')
                                 || py_in x (optional_symbols s')
                                 || py_in x PLATFORM_SYMBOLS))
                 (unknown_symbols t)
     /\ incl (unknown_symbols t') (unknown_symbols t))
  /\ (mandatory_symbols s' = mandatory_symbols s ->
      incl (lib_symbols s) (lib_symbols s') ->
      exists t t',
        audit s = Normal tt t /\ audit s' = Normal tt t'
        /\ missing_symbols t'
           = filter (fun x => negb (py_in x (lib_symbols s'))) (missing_symbols t)
        /\ incl (missing_symbols t') (missing_symbols t)).
Proof.
  split.
  - intros HE HM HO. do 2 eexists.
    split; [apply audit_spec | split; [apply audit_spec |]].
    unfold with_missing_symbols, with_unknown_symbols. cbn [unknown_symbols].
    rewrite HE. unfold expected_unknown.
    assert (Heq : filter (fun x => negb (allowed (mandatory_symbols s') (optional_symbols s') x))
                    (lib_symbols s)
                  = filter (fun x => negb (allowed (mandatory_symbols s') (optional_symbols s') x))
                      (filter (fun x => negb (allowed (mandatory_symbols s) (optional_symbols s) x))
                         (lib_symbols s))).
    { apply filter_stricter. intros x Hx. apply negb_true_iff in Hx. apply negb_true_iff.
      unfold allowed in *. apply orb_false_iff in Hx. destruct Hx as [Hx HP].
      apply orb_false_iff in Hx. destruct Hx as [HxM HxO].
      rewrite HP, orb_false_r. apply orb_false_iff. split.
      - destruct (py_in x (mandatory_symbols s)) eqn:H; [| reflexivity].
        now rewrite (py_in_incl _ _ x HM H) in HxM.
      - destruct (py_in x (optional_symbols s)) eqn:H; [| reflexivity].
        now rewrite (py_in_incl _ _ x HO H) in HxO. }
    split; [exact Heq |]. rewrite Heq. apply incl_filter.
  - intros HM HE. do 2 eexists.
    split; [apply audit_spec | split; [apply audit_spec |]].
    unfold with_missing_symbols, with_unknown_symbols. cbn [missing_symbols].
    rewrite HM. unfold expected_missing.
    assert (Heq : filter (fun x => negb (py_in x (lib_symbols s'))) (mandatory_symbols s)
                  = filter (fun x => negb (py_in x (lib_symbols s')))
                      (filter (fun x => negb (py_in x (lib_symbols s))) (mandatory_symbols s))).
    { apply filter_stricter. intros x Hx. apply negb_true_iff in Hx. apply negb_true_iff.
      destruct (py_in x (lib_symbols s)) eqn:H; [| reflexivity].
      now rewrite (py_in_incl _ _ x HE H) in Hx. }
    split; [exact Heq |]. rewrite Heq. apply incl_filter.
Qed.

Lemma larger_inputs_flag_less_witness :
  let s := with_mandatory_symbols ["foo_init"]
             (with_lib_symbols ["foo_init"; "foo_debug"; "foo_extra"] empty_store) in
  let s' := with_optional_symbols ["foo_debug"] s in
  exists t t',
    audit s = Normal tt t /\ audit s' = Normal tt t'
    /\ incl (unknown_symbols t') (unknown_symbols t).
Proof.
  destruct (larger_inputs_flag_less
              (with_mandatory_symbols ["foo_init"]
                 (with_lib_symbols ["foo_init"; "foo_debug"; "foo_extra"] empty_store))
              (with_optional_symbols ["foo_debug"]
                 (with_mandatory_symbols ["foo_init"]
                    (with_lib_symbols ["foo_init"; "foo_debug"; "foo_extra"] empty_store))))
    as [Hpolicy _].
  destruct (Hpolicy eq_refl ltac:(simpl; apply incl_refl) ltac:(simpl; apply incl_nil_l))
    as (t & t' & Ht & Ht' & _ & Hincl).
  exists t, t'. auto.
Defined.

Lemma Permutation_filter_string (f : string -> bool) (l l' : list string) :
  Permutation l l' -> Permutation (filter f l) (filter f l').
Proof.
  intros H. induction H as [| x l l' H IH | x y l | l l' l'' H1 IH1 H2 IH2]; simpl.
  - constructor.
  - destruct (f x); [now constructor | assumption].
  - destruct (f x), (f y); try apply Permutation_refl. apply perm_swap.
  - now apply Permutation_trans with (filter f l').
Qed.

Lemma Permutation_same_elements (l l' : list string) :
  Permutation l l' -> forall y, In y l' <-> In y l.
Proof.
  intros H y. split.
  - apply Permutation_in. now apply Permutation_sym.
  - now apply Permutation_in.
Qed.

(** X8: the order of the lines of an accepted policy file decides only the
    order of the missing lines: two files that are permutations of each
    other give the same unknown symbols in the same order, the same exit
    status, and the same missing symbols and printed lines up to order. *)
Theorem policy_order_is_irrelevant (w w' : World) (args : Args) (E L L' : list string) :
  get_symbols w (nm args) (lib args) = inr E ->
  get_symbols w' (nm args) (lib args) = inr E ->
  file_lines w (symbols_file args) = inr L ->
  file_lines w' (symbols_file args) = inr L' ->
  Permutation L L' ->
  Forall (fun raw => rejected raw = false) L ->
  let r := run w args in
  let r' := run w' args in
  unknown_symbols (final_store r') = unknown_symbols (final_store r)
  /\ Permutation (missing_symbols (final_store r')) (missing_symbols (final_store r))
  /\ exit_status r' = exit_status r
  /\ Permutation (printed r') (printed r).
Proof.
  intros HE HE' HL HL' Hperm Hall r r'. subst r r'.
  assert (Hall' : Forall (fun raw => rejected raw = false) L')
    by (now rewrite <- Hperm).
  rewrite (run_completed w args E L HE HL Hall).
  rewrite (run_completed w' args E L' HE' HL' Hall').
  cbn [final_store unknown_symbols missing_symbols exit_status printed stdout].
  assert (HM : Permutation (declared_mandatory L') (declared_mandatory L)).
  { unfold declared_mandatory. apply Permutation_flat_map. now apply Permutation_sym. }
  assert (HO : Permutation (declared_optional L') (declared_optional L)).
  { unfold declared_optional. apply Permutation_flat_map. now apply Permutation_sym. }
  assert (HU : expected_unknown (declared_mandatory L') (declared_optional L') E
               = expected_unknown (declared_mandatory L) (declared_optional L) E).
  { apply expected_unknown_same_elements; apply Permutation_same_elements;
      now apply Permutation_sym. }
  assert (HMi : Permutation (expected_missing (declared_mandatory L') E)
                            (expected_missing (declared_mandatory L) E)).
  { unfold expected_missing. now apply Permutation_filter_string. }
  split; [exact HU |]. split; [exact HMi |]. split.
  - unfold expected_status. rewrite HU.
    rewrite (nonempty_same_elements (expected_missing (declared_mandatory L) E)
               (expected_missing (declared_mandatory L') E)); [reflexivity |].
    apply Permutation_same_elements. now apply Permutation_sym.
  - unfold expected_report. rewrite HU. apply Permutation_app_head.
    now apply Permutation_map.
Qed.

Lemma policy_order_is_irrelevant_witness :
  let r := run (world_of (inr ["0 T foo_extra"]) (inr ["foo_init"; "foo_fini"])) sample_args in
  let r' := run (world_of (inr ["0 T foo_extra"]) (inr ["foo_fini"; "foo_init"])) sample_args in
  unknown_symbols (final_store r') = unknown_symbols (final_store r)
  /\ exit_status r' = exit_status r.
Proof.
  destruct (policy_order_is_irrelevant
              (world_of (inr ["0 T foo_extra"]) (inr ["foo_init"; "foo_fini"]))
              (world_of (inr ["0 T foo_extra"]) (inr ["foo_fini"; "foo_init"]))
              sample_args ["foo_extra"] ["foo_init"; "foo_fini"] ["foo_fini"; "foo_init"]
              eq_refl eq_refl eq_refl eq_refl
              (perm_swap "foo_fini" "foo_init" [])
              ltac:(repeat constructor))
    as (HU & _ & Hs & _).
  split; assumption.
Defined.

(** ** The names the script keeps *)

Lemma string_forall_append (p : ascii -> bool) (a b : string) :
  string_forall p (a ++ b) = string_forall p a && string_forall p b.
Proof.
  induction a as [|c a IH]; simpl; [reflexivity |]. now rewrite IH, andb_assoc.
Qed.

Lemma string_forall_lstrip (p : ascii -> bool) (s : string) :
  string_forall p s = true -> string_forall p (lstrip s) = true.
Proof.
  induction s as [|c r IH]; simpl; [reflexivity |].
  intros H. apply andb_true_iff in H. destruct H as [Hc Hr].
  destruct (isspace c); [now apply IH |]. simpl. now rewrite Hc, Hr.
Qed.

Lemma string_forall_rstrip (p : ascii -> bool) (s : string) :
  string_forall p s = true -> string_forall p (rstrip s) = true.
Proof.
  induction s as [|c r IH]; simpl; [reflexivity |].
  intros H. apply andb_true_iff in H. destruct H as [Hc Hr]. specialize (IH Hr).
  destruct (rstrip r) as [|c' r'].
  - destruct (isspace c); [reflexivity |]. simpl. now rewrite Hc.
  - change (p c && string_forall p (String c' r') = true). now rewrite Hc, IH.
Qed.

Lemma string_forall_before_hash (s : string) :
  string_forall (fun c => negb (Ascii.eqb c "#")) (before_hash s) = true.
Proof.
  induction s as [|c r IH]; simpl; [reflexivity |].
  destruct (Ascii.eqb c "#") eqn:Hc; [reflexivity |]. simpl. now rewrite Hc.
Qed.

(** The tokens keep what holds of every character of the string. *)
Lemma split_from_forall (p : ascii -> bool) (s tok : string) :
  string_forall p tok = true -> string_forall p s = true ->
  Forall (fun t => string_forall p t = true) (split_from tok s).
Proof.
  revert tok. induction s as [|c r IH]; intros tok Htok Hs; simpl.
  - destruct tok; simpl; auto.
  - simpl in Hs. apply andb_true_iff in Hs. destruct Hs as [Hc Hr].
    destruct (isspace c).
    + apply Forall_app. split; [destruct tok; simpl; auto | now apply IH].
    + apply IH; [| assumption]. rewrite string_forall_append. simpl.
      now rewrite Htok, Hc.
Qed.

(** No token has a space in it. *)
Lemma split_from_spaceless (s tok : string) :
  string_forall (fun c => negb (isspace c)) tok = true ->
  Forall (fun t => string_forall (fun c => negb (isspace c)) t = true) (split_from tok s).
Proof.
  revert tok. induction s as [|c r IH]; intros tok Htok; simpl.
  - destruct tok; simpl; auto.
  - destruct (isspace c) eqn:Hc.
    + apply Forall_app. split; [destruct tok; simpl; auto | now apply IH].
    + apply IH. rewrite string_forall_append. simpl. now rewrite Htok, Hc.
Qed.

Lemma split_spaceless (s : string) : Forall (fun t => spaceless_name t = true) (split s).
Proof.
  pose proof (split_truthy s) as Ht.
  pose proof (split_from_spaceless s "" eq_refl) as Hs. fold (split s) in Hs.
  rewrite Forall_forall in *. intros t Hin. unfold spaceless_name.
  now rewrite (Ht t Hin), (Hs t Hin).
Qed.

Lemma string_forall_plain (t : string) :
  string_forall (fun c => negb (isspace c)) t = true ->
  string_forall (fun c => negb (Ascii.eqb c "#")) t = true ->
  string_forall plain_char t = true.
Proof.
  induction t as [|c r IH]; simpl; [reflexivity |].
  intros H1 H2. apply andb_true_iff in H1, H2. destruct H1 as [H1 H1'], H2 as [H2 H2'].
  unfold plain_char at 1. now rewrite H1, H2, IH.
Qed.

Lemma fields_plain (raw : string) : Forall (fun t => plain_name t = true) (fields_of raw).
Proof.
  unfold fields_of, stripped.
  pose proof (split_spaceless (strip (before_hash raw))) as Hs.
  assert (Hh : Forall (fun t => string_forall (fun c => negb (Ascii.eqb c "#")) t = true)
                 (split (strip (before_hash raw)))).
  { apply split_from_forall; [reflexivity |]. unfold strip.
    apply string_forall_rstrip, string_forall_lstrip, string_forall_before_hash. }
  rewrite Forall_forall in *. intros t Hin.
  specialize (Hs t Hin). specialize (Hh t Hin).
  unfold spaceless_name in Hs. apply andb_true_iff in Hs. destruct Hs as [Ht Hs].
  unfold plain_name. now rewrite Ht, string_forall_plain.
Qed.

Lemma declared_mandatory_plain (L : list string) :
  Forall (fun x => plain_name x = true) (declared_mandatory L).
Proof.
  apply Forall_forall. intros x Hx. unfold declared_mandatory in Hx.
  apply in_flat_map in Hx. destruct Hx as [raw [_ Hx]].
  pose proof (fields_plain raw) as Hp. rewrite Forall_forall in Hp.
  destruct (fields_of raw) as [|f0 [|f1 rest]]; simpl in Hx; try tauto.
  destruct Hx as [<- | []]. apply Hp. now left.
Qed.

Lemma declared_optional_plain (L : list string) :
  Forall (fun x => plain_name x = true) (declared_optional L).
Proof.
  apply Forall_forall. intros x Hx. unfold declared_optional in Hx.
  apply in_flat_map in Hx. destruct Hx as [raw [_ Hx]].
  pose proof (fields_plain raw) as Hp. rewrite Forall_forall in Hp.
  destruct (fields_of raw) as [|f0 [|f1 [|f2 rest]]]; simpl in Hx; try tauto.
  destruct Hx as [<- | []]. apply Hp. right. now left.
Qed.

Lemma get_symbols_loop_spaceless (lines symbols E : list string) :
  Forall (fun x => spaceless_name x = true) symbols ->
  get_symbols_loop lines symbols = inr E ->
  Forall (fun x => spaceless_name x = true) E.
Proof.
  revert symbols. induction lines as [|line rest IH]; intros symbols Hacc H; simpl in H.
  - now injection H as <-.
  - pose proof (split_spaceless line) as Hs.
    destruct (split line) as [|f0 [|f1 [|f2 [|f3 more]]]]; simpl in H; try discriminate.
    apply (IH (symbols ++ [f2])); [| assumption].
    apply Forall_app. split; [assumption |]. constructor; [| constructor].
    inversion Hs as [|? ? _ Hs1]. inversion Hs1 as [|? ? _ Hs2]. now inversion Hs2.
Qed.

(** X9: the names the script keeps are whole tokens.  However a run ends,
    every mandatory and every optional symbol it has recorded is non-empty
    and has no whitespace and no ['#'] in it, and every exported symbol it
    has listed is non-empty and has no whitespace in it; so is every symbol
    it reports. *)
Theorem recorded_names_are_tokens (w : World) (args : Args) :
  let s := final_store (run w args) in
  Forall (fun x => plain_name x = true) (mandatory_symbols s)
  /\ Forall (fun x => plain_name x = true) (optional_symbols s)
  /\ Forall (fun x => spaceless_name x = true) (lib_symbols s)
  /\ Forall (fun x => spaceless_name x = true) (unknown_symbols s)
  /\ Forall (fun x => plain_name x = true) (missing_symbols s).
Proof.
  assert (HEs : forall E, get_symbols w (nm args) (lib args) = inr E ->
                          Forall (fun x => spaceless_name x = true) E).
  { intros E HE. unfold get_symbols in HE.
    destruct (nm_output w (nm args) (lib args)) as [e | lines]; [discriminate |].
    now apply (get_symbols_loop_spaceless lines [] E). }
  destruct (run_cases w args)
    as [[e [HE ->]] | [[E [e [HE [HL ->]]]] | [[E [pre [bad [post [HE [HL [Hpre [Hbad ->]]]]]]]]
       | [E [L [HE [HL [Hall ->]]]]]]]];
    cbn [final_store mandatory_symbols optional_symbols lib_symbols unknown_symbols
         missing_symbols empty_store with_lib_symbols].
  - repeat split; constructor.
  - repeat split; try constructor. now apply HEs.
  - split; [apply declared_mandatory_plain |]. split; [apply declared_optional_plain |].
    split; [now apply HEs |]. split; constructor.
  - split; [apply declared_mandatory_plain |]. split; [apply declared_optional_plain |].
    split; [now apply HEs |]. split.
    + unfold expected_unknown. apply Forall_forall. intros x Hx.
      apply filter_In in Hx. destruct Hx as [Hx _].
      specialize (HEs E HE). rewrite Forall_forall in HEs. now apply HEs.
    + unfold expected_missing. apply Forall_forall. intros x Hx.
      apply filter_In in Hx. destruct Hx as [Hx _].
      pose proof (declared_mandatory_plain L) as Hp. rewrite Forall_forall in Hp.
      now apply Hp.
Qed.

(** ** scons/gallium.py: the names a shared library is installed under *)

Section InstallSharedLibrary.

Context {node ixes ver : Type} (env : Gallium.SConsEnv node ixes ver).

Lemma rev_seq_S (n : nat) : rev (seq 0 (S n)) = n :: rev (seq 0 n).
Proof. rewrite seq_S, rev_app_distr. reflexivity. Qed.

Lemma removelast_length (v : list string) : length (removelast v) = pred (length v).
Proof.
  rewrite removelast_firstn_len, length_firstn. lia.
Qed.

Lemma while_version_done (fuel : nat) (target_dir : string) (source : node)
      (st : Gallium.locals node ixes) :
  Gallium.version st = [] -> Gallium.while_version env fuel target_dir source st = st.
Proof. intros H. destruct fuel; simpl; [reflexivity | now rewrite H]. Qed.

Lemma while_version_step (fuel : nat) (target_dir : string) (source : node)
      (st : Gallium.locals node ixes) :
  Gallium.version st <> [] ->
  let version' := removelast (Gallium.version st) in
  let target := Gallium.versioned_name env target_dir source (Gallium.version st)
                  (pred (length (Gallium.version st))) in
  Gallium.while_version env (S fuel) target_dir source st
  = Gallium.while_version env fuel target_dir source
      (Gallium.mkLocals version' (Gallium.Command env target (Gallium.last st))
         (Gallium.targets st ++ Gallium.Command env target (Gallium.last st))
         (Gallium.calls st ++ [Gallium.CallCommand target (Gallium.last st)])).
Proof.
  intros Hne. simpl. unfold Gallium.versioned_name.
  rewrite <- removelast_firstn_len.
  destruct (Gallium.version st); [congruence | reflexivity].
Qed.

(** The loop that takes the version apart, one item at a time. *)
Lemma while_version_spec (fuel : nat) (target_dir : string) (source : node) :
  forall (st : Gallium.locals node ixes) (prev : Gallium.call node ixes),
    length (Gallium.version st) <= fuel ->
    Gallium.last st = Gallium.returned env prev ->
    exists new,
      Gallium.version (Gallium.while_version env fuel target_dir source st) = []
      /\ Gallium.calls (Gallium.while_version env fuel target_dir source st)
         = Gallium.calls st ++ new
      /\ Gallium.targets (Gallium.while_version env fuel target_dir source st)
         = Gallium.targets st ++ flat_map (Gallium.returned env) new
      /\ Gallium.chained env prev new
      /\ map Gallium.call_target new
         = map (Gallium.versioned_name env target_dir source (Gallium.version st))
               (rev (seq 0 (length (Gallium.version st)))).
Proof.
  induction fuel as [|fuel IH]; intros st prev Hfuel Hlast.
  - exists []. destruct (Gallium.version st) as [|a v] eqn:Hv; [| simpl in Hfuel; lia].
    simpl. rewrite !app_nil_r. repeat split; auto.
  - destruct (Gallium.version st) as [|a v] eqn:Hv.
    + exists []. rewrite while_version_done by assumption.
      rewrite Hv, !app_nil_r. repeat split; auto.
    + rewrite while_version_step by (rewrite Hv; discriminate).
      cbv zeta. rewrite Hv.
      set (v' := removelast (a :: v)).
      set (target := Gallium.versioned_name env target_dir source (a :: v)
                       (pred (length (a :: v)))).
      set (c := Gallium.CallCommand (ixes := ixes) target (Gallium.last st)).
      set (st1 := Gallium.mkLocals v' (Gallium.Command env target (Gallium.last st))
                    (Gallium.targets st ++ Gallium.Command env target (Gallium.last st))
                    (Gallium.calls st ++ [c])).
      assert (Hlen : length v' = length v).
      { unfold v'. rewrite removelast_length. reflexivity. }
      destruct (IH st1 c) as [new (H1 & H2 & H3 & H5 & H6)].
      { simpl. simpl in Hfuel. lia. }
      { reflexivity. }
      exists (c :: new). simpl in H2, H3, H6.
      split; [exact H1 |]. split; [rewrite H2, <- app_assoc; reflexivity |].
      split; [rewrite H3, <- app_assoc; reflexivity |].
      split.
      * simpl. split; [| exact H5]. exists target. unfold c. now rewrite Hlast.
      * change (length (a :: v)) with (S (length v)). rewrite rev_seq_S.
        cbn [map]. f_equal.
        rewrite H6, Hlen. apply map_ext_in. intros k Hk.
        apply in_rev, in_seq in Hk. unfold Gallium.versioned_name. do 3 f_equal.
        unfold v'. rewrite removelast_firstn_len, firstn_firstn.
        replace (Init.Nat.min k (pred (length (a :: v)))) with k by (simpl; lia).
        reflexivity.
Qed.

Lemma for_source_unfold (install_dir : string) (st : Gallium.locals node ixes) (source : node) :
  let target_dir := Gallium.path_join env [install_dir; "lib"] in
  let target := Gallium.versioned_name env target_dir source (Gallium.version st)
                  (length (Gallium.version st)) in
  Gallium.for_source env install_dir st source
  = Gallium.while_version env (length (Gallium.version st)) target_dir source
      (Gallium.mkLocals (Gallium.version st) (Gallium.InstallAs env target source)
         (Gallium.targets st ++ Gallium.InstallAs env target source)
         (Gallium.calls st ++ [Gallium.CallInstallAs target source])).
Proof.
  unfold Gallium.for_source, Gallium.versioned_name. cbv zeta.
  rewrite firstn_all. reflexivity.
Qed.

(** One turn of the loop over the sources. *)
Lemma for_source_spec (install_dir : string) (st : Gallium.locals node ixes) (source : node) :
  let target_dir := Gallium.path_join env [install_dir; "lib"] in
  let v := Gallium.version st in
  let first := Gallium.CallInstallAs (ixes := ixes)
                 (Gallium.versioned_name env target_dir source v (length v)) source in
  exists new,
    Gallium.version (Gallium.for_source env install_dir st source) = []
    /\ Gallium.calls (Gallium.for_source env install_dir st source)
       = Gallium.calls st ++ first :: new
    /\ Gallium.targets (Gallium.for_source env install_dir st source)
       = Gallium.targets st ++ flat_map (Gallium.returned env) (first :: new)
    /\ Gallium.chained env first new
    /\ map Gallium.call_target new
       = map (Gallium.versioned_name env target_dir source v) (rev (seq 0 (length v))).
Proof.
  intros target_dir v first. rewrite for_source_unfold. cbv zeta.
  fold target_dir. fold v. fold first.
  set (st1 := Gallium.mkLocals v
                (Gallium.InstallAs env
                   (Gallium.versioned_name env target_dir source v (length v)) source)
                (Gallium.targets st
                 ++ Gallium.InstallAs env
                      (Gallium.versioned_name env target_dir source v (length v)) source)
                (Gallium.calls st ++ [first])).
  destruct (while_version_spec (length v) target_dir source st1 first)
    as [new (H1 & H2 & H3 & H5 & H6)]; [apply Nat.le_refl | reflexivity |].
  exists new. simpl in H2, H3, H6.
  split; [exact H1 |]. split; [rewrite H2, <- app_assoc; reflexivity |].
  split; [rewrite H3, <- app_assoc; reflexivity |].
  split; [exact H5 | exact H6].
Qed.

(** The loop over the sources once the version is used up. *)
Lemma fold_unversioned (install_dir : string) (rest : list node) :
  forall st : Gallium.locals node ixes,
    Gallium.version st = [] ->
    let target_dir := Gallium.path_join env [install_dir; "lib"] in
    let plain := fun s => Gallium.path_join env [target_dir; Gallium.str_node env s] in
    let st' := fold_left (Gallium.for_source env install_dir) rest st in
    Gallium.version st' = []
    /\ Gallium.calls st'
       = Gallium.calls st ++ map (fun s => Gallium.CallInstallAs (plain s) s) rest
    /\ Gallium.targets st'
       = Gallium.targets st ++ flat_map (fun s => Gallium.InstallAs env (plain s) s) rest.
Proof.
  induction rest as [|s rest IH]; intros st Hv; cbv zeta.
  - simpl. now rewrite !app_nil_r.
  - cbn [fold_left]. rewrite for_source_unfold. cbv zeta. rewrite Hv.
    cbn [length Gallium.while_version]. unfold Gallium.versioned_name.
    cbn [firstn String.concat].
    match goal with
    | |- context [fold_left _ rest ?st1] =>
        destruct (IH st1 eq_refl) as (H1 & H2 & H3)
    end.
    cbv zeta in *. cbn [Gallium.calls Gallium.targets] in H2, H3.
    rewrite H1, H2, H3. cbn [map flat_map]. rewrite <- !app_assoc. auto.
Qed.

Lemma install_not_dll (sources : list node) (version : list ver) :
  Gallium.SHLIBSUFFIX env <> ".dll" ->
  Gallium.install_shared_library env sources version
  = (let st := fold_left
                 (Gallium.for_source env
                    (Gallium.path_join env [Gallium.abspath env; Gallium.build_dir env]))
                 sources
                 (Gallium.mkLocals (map (Gallium.str_ver env) version) [] [] []) in
     (Gallium.targets st, Gallium.calls st)).
Proof.
  intros Hdll. unfold Gallium.install_shared_library.
  apply String.eqb_neq in Hdll. now rewrite Hdll.
Qed.

(** X10: where shared libraries are not [.dll] files, one source with a
    version of [n] items makes [n + 1] calls: [InstallAs] under the name
    with the whole version, then one symlink [Command] for each shorter
    prefix of the version, down to the bare name; each symlink has for
    source what the call before it returned, the loop uses the version up,
    and the targets returned are what the calls returned, in order. *)
Theorem shared_library_version_chain (source : node) (version : list ver) :
  Gallium.SHLIBSUFFIX env <> ".dll" ->
  let names := map (Gallium.str_ver env) version in
  let n := length version in
  let r := Gallium.install_shared_library env [source] version in
  let first := Gallium.CallInstallAs (ixes := ixes)
                 (Gallium.versioned_name env (Gallium.lib_dir env) source names n) source in
  exists links,
    snd r = first :: links
    /\ length (snd r) = S n
    /\ map Gallium.call_target links
       = map (Gallium.versioned_name env (Gallium.lib_dir env) source names) (rev (seq 0 n))
    /\ Gallium.chained env first links
    /\ fst r = flat_map (Gallium.returned env) (snd r).
Proof.
  intros Hdll names n r first.
  set (install_dir := Gallium.path_join env [Gallium.abspath env; Gallium.build_dir env]).
  set (st1 := Gallium.for_source env install_dir (Gallium.mkLocals names [] [] []) source).
  assert (Hr : r = (Gallium.targets st1, Gallium.calls st1)).
  { unfold r. rewrite (install_not_dll _ _ Hdll). reflexivity. }
  destruct (for_source_spec install_dir (Gallium.mkLocals names [] [] []) source)
    as [links (H1 & H2 & H3 & H4 & H5)].
  fold st1 in H1, H2, H3.
  cbn [Gallium.version Gallium.calls Gallium.targets app] in H2, H3, H4, H5.
  assert (Hn : length names = n) by apply length_map.
  rewrite Hn in H2, H3, H4, H5.
  change (Gallium.path_join env [install_dir; "lib"]) with (Gallium.lib_dir env)
    in H2, H3, H4, H5.
  fold first in H2, H3, H4.
  exists links. rewrite Hr. cbn [fst snd].
  split; [exact H2 |]. split.
  - rewrite H2. cbn [length]. f_equal.
    rewrite <- (length_map Gallium.call_target), H5, length_map, length_rev, length_seq.
    reflexivity.
  - split; [exact H5 |]. split; [exact H4 |]. now rewrite H3, H2.
Qed.

(** X11: the version is used up by the first source.  Where shared
    libraries are not [.dll] files, every source after the first is
    installed as if no version had been given: by one [InstallAs] under its
    bare name, with no symlink. *)
Theorem later_sources_are_not_versioned (source : node) (rest : list node)
        (version : list ver) :
  Gallium.SHLIBSUFFIX env <> ".dll" ->
  let whole := Gallium.install_shared_library env (source :: rest) version in
  let head := Gallium.install_shared_library env [source] version in
  let tail := Gallium.install_shared_library env rest [] in
  let plain := fun s =>
    Gallium.path_join env [Gallium.lib_dir env; Gallium.str_node env s] in
  snd whole = snd head ++ snd tail
  /\ fst whole = fst head ++ fst tail
  /\ snd tail = map (fun s => Gallium.CallInstallAs (plain s) s) rest
  /\ fst tail = flat_map (fun s => Gallium.InstallAs env (plain s) s) rest.
Proof.
  intros Hdll whole head tail plain. subst whole head tail.
  rewrite !(install_not_dll _ _ Hdll). cbv zeta. cbn [fold_left fst snd map].
  set (install_dir := Gallium.path_join env [Gallium.abspath env; Gallium.build_dir env]).
  set (st1 := Gallium.for_source env install_dir
                (Gallium.mkLocals (map (Gallium.str_ver env) version) [] [] []) source).
  assert (Hv : Gallium.version st1 = []).
  { destruct (for_source_spec install_dir
                (Gallium.mkLocals (map (Gallium.str_ver env) version) [] [] []) source)
      as [links (H1 & _)]. exact H1. }
  destruct (fold_unversioned install_dir rest st1 Hv) as (_ & H2 & H3).
  destruct (fold_unversioned install_dir rest (Gallium.mkLocals [] [] [] []) eq_refl)
    as (_ & H2' & H3').
  cbv zeta in *. cbn [Gallium.calls Gallium.targets app] in H2', H3'.
  fold (Gallium.lib_dir env) in H2, H3, H2', H3'. fold plain in H2, H3, H2', H3'.
  rewrite H2, H3, H2', H3'. auto.
Qed.

End InstallSharedLibrary.

Lemma shared_library_version_chain_witness :
  Gallium.install_shared_library (Gallium.sample_env ".so") ["libGL.so"] ["1"; "5"; "0"]
  = (["/src/build/linux/lib/libGL.so.1.5.0"; "/src/build/linux/lib/libGL.so.1.5";
      "/src/build/linux/lib/libGL.so.1"; "/src/build/linux/lib/libGL.so"],
     [Gallium.CallInstallAs "/src/build/linux/lib/libGL.so.1.5.0" "libGL.so";
      Gallium.CallCommand "/src/build/linux/lib/libGL.so.1.5"
        ["/src/build/linux/lib/libGL.so.1.5.0"];
      Gallium.CallCommand "/src/build/linux/lib/libGL.so.1"
        ["/src/build/linux/lib/libGL.so.1.5"];
      Gallium.CallCommand "/src/build/linux/lib/libGL.so"
        ["/src/build/linux/lib/libGL.so.1"]])
  /\ length (snd (Gallium.install_shared_library (Gallium.sample_env ".so")
                    ["libGL.so"] ["1"; "5"; "0"])) = 4.
Proof.
  split; [reflexivity |].
  destruct (shared_library_version_chain (Gallium.sample_env ".so") "libGL.so"
              ["1"; "5"; "0"] ltac:(discriminate))
    as [links (_ & Hlen & _)].
  exact Hlen.
Defined.

Lemma later_sources_are_not_versioned_witness :
  snd (Gallium.install_shared_library (Gallium.sample_env ".so")
         ["libGL.so"; "libEGL.so"] ["1"; "5"])
  = snd (Gallium.install_shared_library (Gallium.sample_env ".so") ["libGL.so"] ["1"; "5"])
    ++ snd (Gallium.install_shared_library (Gallium.sample_env ".so") ["libEGL.so"] []).
Proof.
  apply (later_sources_are_not_versioned (Gallium.sample_env ".so")
           "libGL.so" ["libEGL.so"] ["1"; "5"]).
  discriminate.
Defined.

(** ** scons/gallium.py: checking for functions *)

Lemma check_functions_loop_spec (CheckFunc : string -> bool) (functions : list string) :
  forall (have : bool) (checked : list string),
    Gallium.check_functions_loop CheckFunc functions have checked
    = (have && forallb CheckFunc functions, checked ++ functions).
Proof.
  induction functions as [|f rest IH]; intros have checked; simpl.
  - now rewrite andb_true_r, app_nil_r.
  - destruct (CheckFunc f); simpl; rewrite IH, <- app_assoc; simpl.
    + reflexivity.
    + now rewrite andb_false_r.
Qed.

(** X12: [check_functions] answers true exactly when every function of the
    list is found, true for the empty list, and it does not stop at the
    first function that is not found: every function of the list is
    checked, once for each occurrence, in the order of the list. *)
Theorem check_functions_checks_them_all (CheckFunc : string -> bool)
        (functions : list string) :
  (fst (Gallium.check_functions CheckFunc functions) = true
   <-> forall f, In f functions -> CheckFunc f = true)
  /\ snd (Gallium.check_functions CheckFunc functions) = functions
  /\ fst (Gallium.check_functions CheckFunc []) = true.
Proof.
  unfold Gallium.check_functions. rewrite check_functions_loop_spec. simpl.
  split; [apply forallb_forall | split; reflexivity].
Qed.
